(** * tooba: a shallow embedding of [tooba/main.py]

    The development follows the source file section by section: models,
    utilities (descriptor parsing, text normalisation, file matching),
    the collection index [scan], and the routes.  Python values are
    modelled as follows.

    - [str] is a list of Unicode code points (integers);
    - [dict[str, str]] with literal keys is a [gmap string str];
    - the catalog [dict[str, Show]] is an association list in insertion
      order, as Python dicts iterate in that order;
    - exceptions are the [Raise] branch of [result];
    - the filesystem is an interface ([FS]) answering the queries the
      program makes; the queries [_match_file] performs are recorded in a
      log, so that "which strategy was consulted" is a statement about
      the log;
    - the Unicode character database and the MD5 digest are library
      code: the database is a type class ([Unicode]), MD5 is written
      out. *)

From Stdlib Require Import ZArith Lia Ascii String List Permutation Sorted.
From stdpp Require Import base option list strings gmap.

(** ** Strings *)

(** Python [str]. *)
Definition str : Type := list Z.

(** The code points of an ASCII literal. *)
Definition u (s : string) : str :=
  map (fun a => Z.of_N (N_of_ascii a)) (list_ascii_of_string s).

(** [x in y] on strings: [x] occurs in [y] as a contiguous block. *)
Fixpoint starts_with (x y : str) : bool :=
  match x, y with
  | [], _ => true
  | _ :: _, [] => false
  | a :: x', b :: y' => (a =? b)%Z && starts_with x' y'
  end.

Fixpoint str_in (x y : str) : bool :=
  starts_with x y ||
  match y with
  | [] => false
  | _ :: y' => str_in x y'
  end.

(** [s.replace(old, new)] for single-character [old] and [new]. *)
Definition replace_char (old new : Z) (s : str) : str :=
  map (fun c => if (c =? old)%Z then new else c) s.

(** [s.translate(str.maketrans("", "", drop))]. *)
Definition translate_delete (drop : str) (s : str) : str :=
  filter (fun c => c ∉ drop) s.

(** [s.zfill(width)]: left-fill with ['0'], after a leading sign. *)
Definition zfill (width : nat) (s : str) : str :=
  if decide (width ≤ length s)%nat then s
  else
    let zeros := replicate (width - length s) 48%Z in
    match s with
    | c :: rest =>
        if decide (c = 43 ∨ c = 45)%Z then c :: zeros ++ rest else zeros ++ s
    | [] => zeros
    end.

(** ** Exceptions *)

Inductive exn : Type :=
  | ParseError
  | OSError
  | ValueError
  | OverflowError
  | LookupError
  | KeyError (key : string)
  | HTTPException (status : Z) (detail : str).

Inductive result (A : Type) : Type :=
  | Ok (a : A)
  | Raise (e : exn).
Arguments Ok {A} a.
Arguments Raise {A} e.

#[global] Instance result_ret : MRet result := fun A a => Ok a.

#[global] Instance result_bind : MBind result := fun A B k m =>
  match m with
  | Ok a => k a
  | Raise e => Raise e
  end.

(** ** [hashlib.md5] (RFC 1321) and [str.encode] *)

Module MD5.
Local Open Scope Z_scope.

Definition w32 (x : Z) : Z := x mod 2 ^ 32.

Definition rotl (x c : Z) : Z :=
  w32 (Z.lor (Z.shiftl x c) (Z.shiftr x (32 - c))).

Definition lnot32 (x : Z) : Z := Z.lxor x 0xffffffff.

Definition K : list Z :=
  [ 0xd76aa478; 0xe8c7b756; 0x242070db; 0xc1bdceee; 0xf57c0faf; 0x4787c62a; 0xa8304613; 0xfd469501;
    0x698098d8; 0x8b44f7af; 0xffff5bb1; 0x895cd7be; 0x6b901122; 0xfd987193; 0xa679438e; 0x49b40821;
    0xf61e2562; 0xc040b340; 0x265e5a51; 0xe9b6c7aa; 0xd62f105d; 0x02441453; 0xd8a1e681; 0xe7d3fbc8;
    0x21e1cde6; 0xc33707d6; 0xf4d50d87; 0x455a14ed; 0xa9e3e905; 0xfcefa3f8; 0x676f02d9; 0x8d2a4c8a;
    0xfffa3942; 0x8771f681; 0x6d9d6122; 0xfde5380c; 0xa4beea44; 0x4bdecfa9; 0xf6bb4b60; 0xbebfbc70;
    0x289b7ec6; 0xeaa127fa; 0xd4ef3085; 0x04881d05; 0xd9d4d039; 0xe6db99e5; 0x1fa27cf8; 0xc4ac5665;
    0xf4292244; 0x432aff97; 0xab9423a7; 0xfc93a039; 0x655b59c3; 0x8f0ccc92; 0xffeff47d; 0x85845dd1;
    0x6fa87e4f; 0xfe2ce6e0; 0xa3014314; 0x4e0811a1; 0xf7537e82; 0xbd3af235; 0x2ad7d2bb; 0xeb86d391 ].

Definition shifts : list Z :=
  [ 7; 12; 17; 22; 7; 12; 17; 22; 7; 12; 17; 22; 7; 12; 17; 22;
    5; 9; 14; 20; 5; 9; 14; 20; 5; 9; 14; 20; 5; 9; 14; 20;
    4; 11; 16; 23; 4; 11; 16; 23; 4; 11; 16; 23; 4; 11; 16; 23;
    6; 10; 15; 21; 6; 10; 15; 21; 6; 10; 15; 21; 6; 10; 15; 21 ].

Definition at_ (l : list Z) (i : Z) : Z := nth (Z.to_nat i) l 0.

(** Little-endian bytes of a word, and back. *)
Definition le_bytes (n : nat) (x : Z) : list Z :=
  map (fun i => Z.land (Z.shiftr x (8 * Z.of_nat i)) 0xff) (seq 0 n).

Definition le_word (bs : list Z) : Z :=
  fold_right (fun b acc => b + 256 * acc) 0 bs.

Definition pad (msg : list Z) : list Z :=
  let len := Z.of_nat (length msg) in
  msg ++ [0x80] ++ replicate (Z.to_nat ((55 - len) mod 64)) 0
      ++ le_bytes 8 ((8 * len) mod 2 ^ 64).

Fixpoint groups (n : nat) (size : nat) (l : list Z) : list (list Z) :=
  match n with
  | O => []
  | S n' => firstn size l :: groups n' size (skipn size l)
  end.

Definition words (chunk : list Z) : list Z := map le_word (groups 16 4 chunk).

Definition step (M : list Z) (st : Z * Z * Z * Z) (i : Z) : Z * Z * Z * Z :=
  let '(A, B, C, D) := st in
  let '(F, g) :=
    if i <? 16 then (Z.lor (Z.land B C) (Z.land (lnot32 B) D), i)
    else if i <? 32 then (Z.lor (Z.land D B) (Z.land (lnot32 D) C), (5 * i + 1) mod 16)
    else if i <? 48 then (Z.lxor (Z.lxor B C) D, (3 * i + 5) mod 16)
    else (Z.lxor C (Z.lor B (lnot32 D)), (7 * i) mod 16) in
  let F' := w32 (F + A + at_ K i + at_ M g) in
  (D, w32 (B + rotl F' (at_ shifts i)), B, C).

Definition compress (st : Z * Z * Z * Z) (chunk : list Z) : Z * Z * Z * Z :=
  let '(a0, b0, c0, d0) := st in
  let '(A, B, C, D) := fold_left (step (words chunk)) (map Z.of_nat (seq 0 64)) st in
  (w32 (a0 + A), w32 (b0 + B), w32 (c0 + C), w32 (d0 + D)).

Definition digest (msg : list Z) : list Z :=
  let padded := pad msg in
  let '(a, b, c, d) :=
    fold_left compress (groups (length padded / 64) 64 padded)
      (0x67452301, 0xefcdab89, 0x98badcfe, 0x10325476) in
  le_bytes 4 a ++ le_bytes 4 b ++ le_bytes 4 c ++ le_bytes 4 d.

Definition hex_digit (n : Z) : Z := if n <? 10 then 48 + n else 87 + n.

Definition hexdigest (msg : list Z) : str :=
  flat_map (fun b => [hex_digit (b / 16); hex_digit (b mod 16)]) (digest msg).

End MD5.

(** [s.encode()]: UTF-8.  The strings that the program encodes are texts of
    descriptor files and names of files; a lone surrogate, which [encode]
    refuses, is not among the characters of an XML document. *)
Definition utf8_char (c : Z) : list Z :=
  if (c <? 0x80)%Z then [c]
  else if (c <? 0x800)%Z then
    [Z.lor 0xc0 (Z.shiftr c 6); Z.lor 0x80 (Z.land c 0x3f)]
  else if (c <? 0x10000)%Z then
    [Z.lor 0xe0 (Z.shiftr c 12); Z.lor 0x80 (Z.land (Z.shiftr c 6) 0x3f);
     Z.lor 0x80 (Z.land c 0x3f)]
  else
    [Z.lor 0xf0 (Z.shiftr c 18); Z.lor 0x80 (Z.land (Z.shiftr c 12) 0x3f);
     Z.lor 0x80 (Z.land (Z.shiftr c 6) 0x3f); Z.lor 0x80 (Z.land c 0x3f)].

Definition encode (s : str) : list Z := flat_map utf8_char s.

(** [hashlib.md5(raw.encode(), usedforsecurity=False).hexdigest()[:8]] *)
Definition md5_hex8 (raw : str) : str := firstn 8 (MD5.hexdigest (encode raw)).

Definition show_key (title : str) : str := md5_hex8 title.


(** ** The Unicode character database

    [unicodedata], [str.lower] and [int] consult the tables of the Unicode
    character database, which ship with the interpreter.  The algorithms
    below are those of the interpreter; the tables are the fields of
    [Unicode]. *)

Class Unicode : Type := {
  (** the full canonical decomposition of one code point, the code point
      itself when it has none (Hangul syllables included) *)
  canonical : Z -> list Z;
  (** [unicodedata.combining]: the canonical combining class *)
  combining : Z -> Z;
  (** [unicodedata.category(c) == "Mn"] *)
  category_Mn : Z -> bool;
  (** the full lowercase mapping that depends on no context *)
  lower_full : Z -> list Z;
  (** the properties Cased and Case_Ignorable *)
  cased : Z -> bool;
  case_ignorable : Z -> bool;
  (** the decimal digit value, and [str.isspace] *)
  decimal : Z -> option Z;
  whitespace : Z -> bool;
}.

(** [bytes.decode("utf-8", "replace")]: each maximal ill-formed prefix of a
    sequence becomes U+FFFD. *)
Definition continuation (lo hi b : Z) : bool := (lo <=? b)%Z && (b <=? hi)%Z.

Definition low6 (b : Z) : Z := Z.land b 0x3f.

Fixpoint utf8_decode (bs : list Z) : str :=
  match bs with
  | [] => []
  | b0 :: r0 =>
      if (b0 <? 0x80)%Z then b0 :: utf8_decode r0
      else if continuation 0xc2 0xdf b0 then
        match r0 with
        | b1 :: r1 =>
            if continuation 0x80 0xbf b1
            then Z.lor (Z.shiftl (Z.land b0 0x1f) 6) (low6 b1) :: utf8_decode r1
            else 0xfffd%Z :: utf8_decode r0
        | [] => [0xfffd%Z]
        end
      else if continuation 0xe0 0xef b0 then
        match r0 with
        | b1 :: r1 =>
            if continuation (if (b0 =? 0xe0)%Z then 0xa0 else 0x80)
                            (if (b0 =? 0xed)%Z then 0x9f else 0xbf) b1
            then
              match r1 with
              | b2 :: r2 =>
                  if continuation 0x80 0xbf b2
                  then Z.lor (Z.shiftl (Z.land b0 0x0f) 12)
                         (Z.lor (Z.shiftl (low6 b1) 6) (low6 b2)) :: utf8_decode r2
                  else 0xfffd%Z :: utf8_decode r1
              | [] => [0xfffd%Z]
              end
            else 0xfffd%Z :: utf8_decode r0
        | [] => [0xfffd%Z]
        end
      else if continuation 0xf0 0xf4 b0 then
        match r0 with
        | b1 :: r1 =>
            if continuation (if (b0 =? 0xf0)%Z then 0x90 else 0x80)
                            (if (b0 =? 0xf4)%Z then 0x8f else 0xbf) b1
            then
              match r1 with
              | b2 :: r2 =>
                  if continuation 0x80 0xbf b2
                  then
                    match r2 with
                    | b3 :: r3 =>
                        if continuation 0x80 0xbf b3
                        then Z.lor (Z.shiftl (Z.land b0 0x07) 18)
                               (Z.lor (Z.shiftl (low6 b1) 12)
                                  (Z.lor (Z.shiftl (low6 b2) 6) (low6 b3)))
                             :: utf8_decode r3
                        else 0xfffd%Z :: utf8_decode r2
                    | [] => [0xfffd%Z]
                    end
                  else 0xfffd%Z :: utf8_decode r1
              | [] => [0xfffd%Z]
              end
            else 0xfffd%Z :: utf8_decode r0
        | [] => [0xfffd%Z]
        end
      else 0xfffd%Z :: utf8_decode r0
  end.

(** ** [urllib.parse.quote] and [urllib.parse.unquote] *)

Definition ascii_alnum (c : Z) : bool :=
  continuation 48 57 c || continuation 65 90 c || continuation 97 122 c.

Definition hex_upper (n : Z) : Z := (if n <? 10 then 48 + n else 55 + n)%Z.

(** [quote(s)], with the default [safe="/"]. *)
Definition quote (s : str) : str :=
  flat_map (fun b =>
              if ascii_alnum b || bool_decide (b ∈ u "_.-~/") then [b]
              else [37%Z; hex_upper (b / 16); hex_upper (b mod 16)])
           (encode s).

Definition hex_value (c : Z) : option Z :=
  if continuation 48 57 c then Some (c - 48)%Z
  else if continuation 65 70 c then Some (c - 55)%Z
  else if continuation 97 102 c then Some (c - 87)%Z
  else None.

(** The escapes of a string resolved: a byte ([inl]) for an ASCII character
    or a well-formed escape, the character itself ([inr]) otherwise. *)
Fixpoint unquote_items (s : str) : list (Z + Z) :=
  match s with
  | [] => []
  | c :: rest =>
      if (c =? 37)%Z then
        match rest with
        | a :: b :: rest' =>
            match hex_value a, hex_value b with
            | Some x, Some y => inl (16 * x + y)%Z :: unquote_items rest'
            | _, _ => inl c :: unquote_items rest
            end
        | _ => inl c :: unquote_items rest
        end
      else (if (c <? 0x80)%Z then inl c else inr c) :: unquote_items rest
  end.

(** Each run of bytes is decoded on its own. *)
Fixpoint decode_runs (run_rev : list Z) (items : list (Z + Z)) : str :=
  match items with
  | [] => utf8_decode (rev run_rev)
  | inl b :: rest => decode_runs (b :: run_rev) rest
  | inr c :: rest => utf8_decode (rev run_rev) ++ c :: decode_runs [] rest
  end.

Definition unquote (s : str) : str :=
  if decide (37%Z ∈ s) then decode_runs [] (unquote_items s) else s.

(** ** Models *)

Module Episode.
Record t : Type := mk {
  showtitle : str;
  title : str;
  season : str;
  episode : str;
  plot : str;
  aired : option str;
  video_file : option str;
  thumbnail : option str;
}.

Definition slug (self : t) : str :=
  let raw := showtitle self ++ u "-s" ++ season self ++ u "e" ++ episode self
             ++ u "-" ++ title self in
  md5_hex8 raw.
End Episode.

Module Show.
Record t : Type := mk {
  title : str;
  plot : str;
  thumb : option str;
  episodes : list Episode.t;
}.
End Show.

(** The catalog [dict[str, Show]], in insertion order. *)
Definition catalog : Type := list (str * Show.t).

#[global] Typeclasses Transparent str catalog.

(** [shows.get(key)] *)
Fixpoint dict_get (key : str) (shows : catalog) : option Show.t :=
  match shows with
  | [] => None
  | (k, v) :: rest => if decide (k = key) then Some v else dict_get key rest
  end.

(** [shows[key] = show]: an existing key keeps its place. *)
Fixpoint dict_set (key : str) (show : Show.t) (shows : catalog) : catalog :=
  match shows with
  | [] => [(key, show)]
  | (k, v) :: rest =>
      if decide (k = key) then (key, show) :: rest
      else (k, v) :: dict_set key show rest
  end.

Definition append_episode (ep : Episode.t) (show : Show.t) : Show.t :=
  Show.mk (Show.title show) (Show.plot show) (Show.thumb show)
          (Show.episodes show ++ [ep]).

(** [shows.setdefault(key, fresh).episodes.append(ep)]: the list of the
    show stored under [key] grows in place; [fresh] is stored first when
    the key is new. *)
Fixpoint setdefault_append (key : str) (fresh : Show.t) (ep : Episode.t)
    (shows : catalog) : catalog :=
  match shows with
  | [] => [(key, append_episode ep fresh)]
  | (k, v) :: rest =>
      if decide (k = key) then (k, append_episode ep v) :: rest
      else (k, v) :: setdefault_append key fresh ep rest
  end.

(** ** Descriptor files, paths and the filesystem *)

(** An [xml.etree.ElementTree.Element]: tag, text and child elements. *)
#[local] Set Warnings "-register-all".
Inductive Element : Type :=
  | mkElement (tag : str) (text : option str) (children : list Element).

Definition tag (el : Element) : str :=
  let 'mkElement t _ _ := el in t.
Definition text (el : Element) : option str :=
  let 'mkElement _ t _ := el in t.
Definition children (el : Element) : list Element :=
  let 'mkElement _ _ c := el in c.

(** [value or ""] *)
Definition or_empty (value : option str) : str := default [] value.

(** A [pathlib.Path] below the root directory: its parts, the outermost
    directory first. *)
Definition Path : Type := list str.

#[global] Typeclasses Transparent Path.

(** [str(path)] *)
Definition path_str (p : Path) : str :=
  match p with
  | [] => u "/"
  | _ => flat_map (fun part => 47%Z :: part) p
  end.

Definition name (p : Path) : str := List.last p [].

(** [s.rfind(c)] *)
Fixpoint rfind (c : Z) (s : str) : option nat :=
  match s with
  | [] => None
  | d :: rest =>
      match rfind c rest with
      | Some i => Some (S i)
      | None => if (d =? c)%Z then Some 0%nat else None
      end
  end.

(** The index at which the suffix of a name starts, if it has one. *)
Definition suffix_start (n : str) : option nat :=
  match rfind 46 n with
  | Some i => if decide (0 < i < length n - 1)%nat then Some i else None
  | None => None
  end.

Definition suffix (p : Path) : str :=
  match suffix_start (name p) with
  | Some i => drop i (name p)
  | None => []
  end.

Definition stem (p : Path) : str :=
  match suffix_start (name p) with
  | Some i => take i (name p)
  | None => name p
  end.

Definition with_name (p : Path) (n : str) : Path := removelast p ++ [n].

Definition with_suffix (p : Path) (sfx : str) : result Path :=
  if decide (47%Z ∈ sfx) then Raise ValueError
  else if decide ((sfx ≠ [] ∧ head sfx ≠ Some 46%Z) ∨ sfx = [46%Z]) then Raise ValueError
  else if decide (name p = []) then Raise ValueError
  else Ok (with_name p (stem p ++ sfx)).



(** What the program asks of the filesystem.  Every directory walk of the
    program is [BASE_PATH.rglob(pattern)], the library root being the
    module constant [BASE_PATH]; [rglob] gives its paths in the order
    of the traversal. *)
Record FS : Type := {
  rglob : str -> list Path;
  exists_ : Path -> bool;
  is_file : Path -> bool;
  (** [ET.parse(path).getroot()]: the root element, [ParseError] when the
      content is not well-formed, another exception when the file cannot
      be read or its encoding is not supported *)
  et_parse : Path -> result Element;
}.

(** The queries of one call, in the order they are made. *)
Inductive fs_query : Type :=
  | QExists (p : Path)
  | QRglob (pattern : str).

Definition traced (A : Type) : Type := (result A * list fs_query)%type.

#[global] Instance traced_ret : MRet traced := fun A a => (Ok a, []).

#[global] Instance traced_bind : MBind traced := fun A B k m =>
  match m with
  | (Ok a, log) => let '(r, log') := k a in (r, log ++ log')
  | (Raise e, log) => (Raise e, log)
  end.

Definition lift {A} (r : result A) : traced A := (r, []).

Definition ask_exists (fs : FS) (p : Path) : traced bool :=
  (Ok (exists_ fs p), [QExists p]).

Definition ask_rglob (fs : FS) (pattern : str) : traced (list Path) :=
  (Ok (rglob fs pattern), [QRglob pattern]).

(** [meta[key]] *)
Definition getitem (meta : gmap string str) (key : string) : result str :=
  match meta !! key with
  | Some v => Ok v
  | None => Raise (KeyError key)
  end.

(** ** Pages

    A Tagflow document: elements with their positional arguments, their
    keyword arguments and their children, and text.  Styling (the lists of
    CSS classes and the [classes] and [style] keywords) is left out. *)
Inductive html : Type :=
  | El (name : string) (args : list str) (kwargs : list (string * str))
       (kids : list html)
  | Txt (s : str).

Inductive response : Type :=
  | TagResponse (page : html)
  | FileResponse (f : Path).

(** The status line of a route: a value returned is served with 200, an
    [HTTPException] with its own status, any other exception with 500. *)
Definition status_code (r : result response) : Z :=
  match r with
  | Ok _ => 200
  | Raise (HTTPException status _) => status
  | Raise _ => 500
  end.

(** Truth of a [str] and of an [Optional[str]]. *)
Definition truthy (s : str) : bool := negb (bool_decide (s = [])).

Definition truthy_opt (s : option str) : bool :=
  match s with
  | Some s => truthy s
  | None => false
  end.

(** [str < str] and the order of the sort key [(e.season, e.episode)]. *)
Fixpoint str_lt (x y : str) : bool :=
  match x, y with
  | _, [] => false
  | [], _ :: _ => true
  | a :: x', b :: y' => (a <? b)%Z || ((a =? b)%Z && str_lt x' y')
  end.

Definition key_lt (k1 k2 : str * str) : bool :=
  if decide (k1.1 = k2.1) then str_lt k1.2 k2.2 else str_lt k1.1 k2.1.

(** [sorted(items, key=key)]: the stable sort; an item goes before the
    first item whose key is not smaller than its own. *)
Section Sorted.
Context {A : Type} (key : A -> str * str).

Fixpoint insert_sorted (x : A) (l : list A) : list A :=
  match l with
  | [] => [x]
  | y :: rest =>
      if key_lt (key y) (key x) then y :: insert_sorted x rest
      else x :: l
  end.

Definition sorted (items : list A) : list A :=
  fold_right insert_sorted [] items.

(** [a] may come before [b]: the key of [b] is not smaller. *)
Definition in_order (a b : A) : Prop := key_lt (key b) (key a) = false.
End Sorted.

(** The sort key of the show page, [lambda e: (e.season, e.episode)]. *)
Definition episode_key (e : Episode.t) : str * str :=
  (Episode.season e, Episode.episode e).

(** [s.split(":", 1)], when [":" in s]. *)
Fixpoint split_colon (s : str) : str * str :=
  match s with
  | [] => ([], [])
  | c :: rest =>
      if (c =? 58)%Z then ([], rest)
      else let '(a, b) := split_colon rest in (c :: a, b)
  end.

Section Model.
Context `{!Unicode}.

(** *** [unicodedata.normalize("NFD", txt)] *)

(** Canonical ordering, by insertion: a character of non-zero class moves
    back over the characters of greater class that precede it. *)
Fixpoint reorder_insert (c : Z) (rev_done : list Z) : list Z :=
  match rev_done with
  | p :: rest =>
      if (0 <? combining c)%Z && (combining c <? combining p)%Z
      then p :: reorder_insert c rest
      else c :: rev_done
  | [] => [c]
  end.

Definition canonical_order (s : str) : str :=
  rev (fold_left (fun acc c => reorder_insert c acc) s []).

Definition nfd (txt : str) : str := canonical_order (flat_map canonical txt).

(** *** [str.lower] *)

(** U+03A3 lowers to the final sigma U+03C2 when a cased character
    precedes it and none follows it, case-ignorable characters being
    skipped on both sides. *)
Definition skip_ignorable (s : str) : option Z :=
  List.find (fun c => negb (case_ignorable c)) s.

Definition capital_sigma (before_rev after : str) : Z :=
  let preceded := match skip_ignorable before_rev with
                  | Some c => cased c
                  | None => false
                  end in
  let followed := match skip_ignorable after with
                  | Some c => cased c
                  | None => false
                  end in
  if preceded && negb followed then 0x3c2%Z else 0x3c3%Z.

Fixpoint lower_from (before_rev s : str) : str :=
  match s with
  | [] => []
  | c :: rest =>
      (if (c =? 0x3a3)%Z then [capital_sigma before_rev rest] else lower_full c)
        ++ lower_from (c :: before_rev) rest
  end.

Definition lower (s : str) : str := lower_from [] s.

(** *** [normalize] *)

Definition normalize (txt : str) : str :=
  let base := nfd txt in
  let base := List.filter (fun c => negb (category_Mn c)) base in
  let rm_punct := u ",?!" in
  translate_delete rm_punct (replace_char 32 46 (lower base)).

(** *** [int(s)] and [chr(i)] *)

Definition ascii_digit (c : Z) : bool := (48 <=? c)%Z && (c <=? 57)%Z.

Definition ascii_space (c : Z) : bool :=
  (c =? 32)%Z || ((9 <=? c)%Z && (c <=? 13)%Z).

(** Non-ASCII spaces and decimal digits are first mapped to ASCII ones. *)
Definition to_ascii_number (c : Z) : Z :=
  if (c <? 127)%Z then c
  else if whitespace c then 32%Z
  else match decimal c with
       | Some d => (48 + d)%Z
       | None => 63%Z
       end.

Fixpoint int_digits (acc : Z) (s : list Z) : option Z :=
  match s with
  | [] => Some acc
  | c :: rest =>
      if ascii_digit c then int_digits (10 * acc + (c - 48))%Z rest
      else if (c =? 95)%Z then
        match rest with
        | d :: rest' =>
            if ascii_digit d then int_digits (10 * acc + (d - 48))%Z rest'
            else None
        | [] => None
        end
      else if forallb ascii_space s then Some acc
      else None
  end.

Fixpoint lstrip_space (s : list Z) : list Z :=
  match s with
  | c :: rest => if ascii_space c then lstrip_space rest else s
  | [] => []
  end.

(** The default of [sys.get_int_max_str_digits()]. *)
Definition int_max_str_digits : nat := 4300.

Definition py_int (s : str) : result Z :=
  let a := lstrip_space (map to_ascii_number s) in
  let '(sign, a) := match a with
                    | 43 :: r => (1, r)
                    | 45 :: r => (-1, r)
                    | _ => (1, a)
                    end%Z in
  match a with
  | c :: rest =>
      if ascii_digit c then
        match int_digits (c - 48)%Z rest with
        | Some n =>
            if decide (length (List.filter ascii_digit a) ≤ int_max_str_digits)%nat
            then Ok (sign * n)%Z
            else Raise ValueError
        | None => Raise ValueError
        end
      else Raise ValueError
  | [] => Raise ValueError
  end.

Definition py_chr (i : Z) : result Z :=
  if decide (-2 ^ 31 ≤ i < 2 ^ 31)%Z then
    if decide (0 ≤ i < 0x110000)%Z then Ok i else Raise ValueError
  else Raise OverflowError.

(** *** [_get] and [parse_nfo_file] *)

Definition _get (el : Element) (tagname : str) : option str :=
  match List.find (fun node => bool_decide (tag node = tagname)) (children el) with
  | Some node => text node
  | None => None
  end.

Definition parse_nfo_file (fs : FS) (nfo : Path) : result (gmap string str) :=
  match et_parse fs nfo with
  | Raise ParseError => Ok ∅
  | Raise e => Raise e
  | Ok root =>
      if decide (tag root = u "tvshow") then
        Ok (<["type" := u "show"]>
            (<["title" := or_empty (_get root (u "title"))]>
            (<["plot" := or_empty (_get root (u "plot"))]>
            (<["thumb" := or_empty (_get root (u "thumb"))]> ∅))))
      else if decide (tag root = u "episodedetails") then
        Ok (<["type" := u "episode"]>
            (<["showtitle" := or_empty (_get root (u "showtitle"))]>
            (<["title" := or_empty (_get root (u "title"))]>
            (<["season" := or_empty (_get root (u "season"))]>
            (<["episode" := or_empty (_get root (u "episode"))]>
            (<["plot" := or_empty (_get root (u "plot"))]>
            (<["aired" := or_empty (_get root (u "aired"))]> ∅)))))))
      else Ok ∅
  end.

(** *** [_match_file] *)

(** [p.suffix.lower() in exts] *)
Definition accepted (exts : list str) (p : Path) : bool :=
  bool_decide (lower (suffix p) ∈ exts).

(** The loop [for path in ...: if path.exists(): return str(path)] over
    the neighbours with the same stem, one per extension; the generator
    builds each neighbour when the loop asks for it. *)
Fixpoint neighbours (fs : FS) (nfo : Path) (exts : list str) : traced (option str) :=
  match exts with
  | [] => mret None
  | ext :: rest =>
      path ← lift (with_suffix nfo ext);
      found ← ask_exists fs path;
      if found : bool then mret (Some (path_str path))
      else neighbours fs nfo rest
  end.

(** The same loop over paths that a walk produced. *)
Fixpoint first_existing (fs : FS) (paths : list Path) : traced (option str) :=
  match paths with
  | [] => mret None
  | path :: rest =>
      found ← ask_exists fs path;
      if found : bool then mret (Some (path_str path))
      else first_existing fs rest
  end.

(** Strategy 2: the same stem anywhere under [BASE_PATH]. *)
Definition same_stem (fs : FS) (nfo : Path) (exts : list str) : traced (option str) :=
  found ← ask_rglob fs (stem nfo ++ u "*");
  first_existing fs (List.filter (accepted exts) found).

(** Strategy 3: the fuzzy match. *)
Definition fuzzy_hit (exts : list str) (show title : str) (patterns : list str)
    (p : Path) : bool :=
  accepted exts p &&
  (let stem := normalize (stem p) in
   str_in show stem && (str_in title stem || existsb (fun tok => str_in tok stem) patterns)).

Definition fuzzy (fs : FS) (meta : gmap string str) (exts : list str) : traced (option str) :=
  showtitle ← lift (getitem meta "showtitle");
  title ← lift (getitem meta "title");
  let show := normalize showtitle in
  let title := normalize title in
  season ← lift (getitem meta "season");
  ep ← lift (getitem meta "episode");
  let patterns := [ u "s" ++ season ++ u "e" ++ ep;
                    u "s" ++ zfill 2 season ++ u "e" ++ zfill 2 ep ] in
  found ← ask_rglob fs (u "*");
  mret (path_str <$> List.find (fuzzy_hit exts show title patterns) found).

Definition _match_file (fs : FS) (nfo : Path) (meta : gmap string str)
    (exts : list str) : traced (option str) :=
  hit ← neighbours fs nfo exts;
  match hit with
  | Some path => mret (Some path)
  | None =>
      hit ← same_stem fs nfo exts;
      match hit with
      | Some path => mret (Some path)
      | None =>
          if decide (meta !! "type" = Some (u "episode")) then fuzzy fs meta exts
          else mret None
      end
  end.

(** [find_video] and [find_thumbnail]; a [frozenset] is iterated in an
    order that the interpreter chooses, [video_order] is that order for
    [VIDEO_EXTENSIONS]. *)
Definition VIDEO_EXTENSIONS : list str := [u ".mp4"; u ".webm"; u ".mkv"; u ".avi"].
Definition THUMB_EXTENSION : str := u ".tbn".

Definition find_video (video_order : list str) (fs : FS) (nfo : Path)
    (meta : gmap string str) : traced (option str) :=
  _match_file fs nfo meta video_order.

Definition find_thumbnail (fs : FS) (nfo : Path) (meta : gmap string str)
    : traced (option str) :=
  _match_file fs nfo meta [THUMB_EXTENSION].

(** *** [scan] *)

(** One turn of the loop over the descriptors. *)
Definition scan_step (video_order : list str) (fs : FS) (shows : catalog)
    (nfo : Path) : result catalog :=
  if negb (is_file fs nfo) then Ok shows
  else
    meta ← parse_nfo_file fs nfo;
    if decide (meta !! "type" = Some (u "show")) then
      title ← getitem meta "title";
      plot ← getitem meta "plot";
      thumb ← getitem meta "thumb";
      Ok (dict_set (show_key title) (Show.mk title plot (Some thumb) []) shows)
    else if decide (meta !! "type" = Some (u "episode")) then
      showtitle ← getitem meta "showtitle";
      title ← getitem meta "title";
      season ← getitem meta "season";
      episode ← getitem meta "episode";
      plot ← getitem meta "plot";
      video_file ← (find_video video_order fs nfo meta).1;
      thumbnail ← (find_thumbnail fs nfo meta).1;
      let ep := Episode.mk showtitle title season episode plot
                           (meta !! "aired") video_file thumbnail in
      showtitle ← getitem meta "showtitle";
      Ok (setdefault_append (show_key showtitle) (Show.mk showtitle [] None []) ep shows)
    else Ok shows.

Fixpoint scan_loop (video_order : list str) (fs : FS) (shows : catalog)
    (nfos : list Path) : result catalog :=
  match nfos with
  | [] => Ok shows
  | nfo :: rest =>
      shows ← scan_step video_order fs shows nfo;
      scan_loop video_order fs shows rest
  end.

Definition scan (video_order : list str) (fs : FS) : result catalog :=
  scan_loop video_order fs [] (rglob fs (u "*.nfo")).

(** [@lru_cache(maxsize=1)]: the first result is kept; an exception is
    not. *)
Definition scan_cached (video_order : list str) (fs : FS)
    (cache : option catalog) : result catalog * option catalog :=
  match cache with
  | Some shows => (Ok shows, cache)
  | None =>
      match scan video_order fs with
      | Ok shows => (Ok shows, Some shows)
      | Raise e => (Raise e, None)
      end
  end.

(** *** Layout helpers and components *)

(** [s.strip()] *)
Fixpoint lstrip (s : str) : str :=
  match s with
  | c :: rest => if whitespace c then lstrip rest else s
  | [] => []
  end.

Definition strip (s : str) : str := rev (lstrip (rev (lstrip s))).

Definition header (back_href : option str) (content : list html) : html :=
  El "div" [] []
    [ (if truthy_opt back_href
       then El "a" [] [("href", or_empty back_href)] [Txt [0x2190%Z]]
       else El "span" [] [] [Txt [0x1f4fa%Z]]);
      El "div" [] [] content ].

Definition document (title : str) (back_href : option str)
    (content : list html) : html :=
  El "html" [] [("lang", u "en")]
    [ El "head" [] []
        [ El "title" [title] [] [];
          El "meta" [] [("charset", u "utf-8")] [];
          El "meta" [] [("name", u "viewport");
                        ("content", u "width=device-width, initial-scale=1")] [];
          El "script" [] [("src", u "https://cdn.tailwindcss.com")] [];
          El "link" [] [("rel", u "preconnect");
                        ("href", u "https://fonts.googleapis.com")] [];
          El "link" [] [("rel", u "preconnect");
                        ("href", u "https://fonts.gstatic.com");
                        ("crossorigin", u "anonymous")] [];
          El "link" [] [("href", u "https://fonts.googleapis.com/css2?family=Nunito:wght@400;600;700&display=swap");
                        ("rel", u "stylesheet")] [] ];
      El "body" [] [] content ].

(** The title of a show, split on its first colon. *)
Definition title_parts (outer inner : string) (title : str) : list html :=
  if decide (58%Z ∈ title) then
    let '(main_title, subtitle) := split_colon title in
    [ El outer [] [] [Txt (strip main_title)];
      El inner [] [] [Txt (strip subtitle)] ]
  else [ El outer [] [] [Txt title] ].

(** [chr(ord("A") + int(ep.season) - 1)]: 1 is A, 2 is B, etc. *)
Definition season_letter (season : str) : result Z :=
  n ← py_int season;
  py_chr (65 + n - 1).

Fixpoint card_grid {A} (items : list A) (card_func : A -> result html)
    : result (list html) :=
  match items with
  | [] => Ok []
  | item :: rest =>
      card ← card_func item;
      cards ← card_grid rest card_func;
      Ok (card :: cards)
  end.

Definition episode_card (ep : Episode.t) : result html :=
  inner ←
    (if truthy_opt (Episode.thumbnail ep) then
       badge ←
         (if truthy (Episode.season ep) && truthy (Episode.episode ep) then
            letter ← season_letter (Episode.season ep);
            Ok [ El "div" [] []
                   [ El "span" [] [] [Txt [letter]];
                     El "span" [] [] [Txt (Episode.episode ep)] ] ]
          else Ok []);
       Ok [ El "div" [] []
              [ El "img" []
                  [("src", u "/thumbnail/"
                           ++ quote (drop 1 (or_empty (Episode.thumbnail ep))));
                   ("alt", Episode.title ep ++ u " thumb")] [];
                El "div" [] [] (badge ++ [El "h2" [] [] [Txt (Episode.title ep)]]) ] ]
     else Ok []);
  Ok (El "a" [] [("href", u "/episode/" ++ Episode.slug ep)] inner).

(** *** Routes; [shows] is the value of [scan()] *)

Definition _not_found (title msg : str) : html :=
  document title (Some (u "/"))
    [ header (Some (u "/")) [El "h1" [] [] [Txt title]];
      El "div" [] [] [ El "h2" [title] [] []; El "p" [msg] [] [] ] ].

Definition show_detail (shows : catalog) (show_hash : str) : result response :=
  match dict_get show_hash shows with
  | None => Ok (TagResponse (_not_found (u "Show Not Found") (u "id=" ++ show_hash)))
  | Some show =>
      body ←
        (match Show.episodes show with
         | _ :: _ =>
             let episodes := sorted episode_key (Show.episodes show) in
             cards ← card_grid episodes episode_card;
             Ok (El "div" [] [] cards)
         | [] => Ok (El "p" [u "No episodes found."] [] [])
         end);
      Ok (TagResponse
            (document (Show.title show) (Some (u "/"))
               [ header (Some (u "/")) (title_parts "h1" "span" (Show.title show));
                 body ]))
  end.

(** The episodes of the catalog, show by show. *)
Definition all_episodes (shows : catalog) : list Episode.t :=
  flat_map (fun kv => Show.episodes kv.2) shows.

Definition episode_detail (shows : catalog) (episode_hash : str) : result response :=
  match List.find (fun e => bool_decide (Episode.slug e = episode_hash))
                  (all_episodes shows) with
  | None => Ok (TagResponse (_not_found (u "Episode Not Found") episode_hash))
  | Some ep =>
      let back := u "/show/" ++ show_key (Episode.showtitle ep) in
      heading ←
        (if truthy (Episode.season ep) && truthy (Episode.episode ep) then
           letter ← season_letter (Episode.season ep);
           Ok [ El "div" [] []
                  [ El "span" [] [] [Txt [letter]];
                    El "span" [] [] [Txt (Episode.episode ep)] ];
                El "h1" [] [] [Txt (Episode.title ep)] ]
         else Ok []);
      let player :=
        if truthy_opt (Episode.video_file ep) then
          El "video" [] [("controls", u "True"); ("autoplay", u "True")]
            [ El "source" []
                [("src", u "/video-file/"
                         ++ quote (drop 1 (or_empty (Episode.video_file ep))));
                 ("type", u "video/mp4")] [];
              Txt (u "Your browser does not support the <video> tag.") ]
        else El "p" [u "No video file found."] [] [] in
      Ok (TagResponse
            (document (Episode.season ep ++ [0xd7%Z] ++ Episode.episode ep
                       ++ u " " ++ Episode.title ep) (Some back)
               [ header (Some back)
                   [ El "div" [] [] heading;
                     El "span" [] []
                       (if decide (58%Z ∈ Episode.showtitle ep) then
                          let '(main_title, subtitle) :=
                            split_colon (Episode.showtitle ep) in
                          [ El "span" [] [] [Txt (strip main_title)];
                            El "span" [] [] [Txt (strip subtitle)] ]
                        else [Txt (Episode.showtitle ep)]) ];
                 El "div" [] [] [player] ]))
  end.



(** A route that starts with [scan()]. *)
Definition with_scan (video_order : list str) (fs : FS) (cache : option catalog)
    (route : catalog -> result response) : result response * option catalog :=
  let '(shows, cache') := scan_cached video_order fs cache in
  (shows ≫= route, cache').

End Model.

(** ** The home page *)

(** [str(n)] for an integer: its decimal digits, after a minus sign when it
    is negative. *)
Fixpoint digits_from (fuel : nat) (n : Z) (acc : str) : str :=
  match fuel with
  | O => acc
  | S fuel' =>
      let acc' := (48 + n mod 10)%Z :: acc in
      if (n <? 10)%Z then acc' else digits_from fuel' (n / 10)%Z acc'
  end.

Definition str_of_int (n : Z) : str :=
  if (n <? 0)%Z then 45%Z :: digits_from (S (Z.to_nat (Z.log2 (- n)))) (- n)%Z []
  else digits_from (S (Z.to_nat (Z.log2 n))) n [].

(** [[e.thumbnail for e in show.episodes if e.thumbnail][:4]] *)
Definition card_thumbs (show : Show.t) : list str :=
  take 4 (map (fun e => or_empty (Episode.thumbnail e))
              (List.filter (fun e => truthy_opt (Episode.thumbnail e))
                           (Show.episodes show))).

(** The images of the 2x2 grid, [enumerate(thumbs)] from [idx]. *)
Fixpoint grid_images (title : str) (idx : Z) (thumbs : list str) : list html :=
  match thumbs with
  | [] => []
  | tbn :: rest =>
      El "img" []
         [("src", u "/thumbnail/" ++ quote (drop 1 tbn));
          ("alt", title ++ u " still " ++ str_of_int (idx + 1))] []
      :: grid_images title (idx + 1) rest
  end.

Section HomePage.
Context `{!Unicode}.

Definition show_card (show : Show.t) (href : str) : html :=
  let thumbs := card_thumbs show in
  El "a" [] [("href", href)]
    (if decide (thumbs = []) then []
     else
       [ El "div" [] []
           [ (match thumbs with
              | [tbn] =>
                  El "img" []
                     [("src", u "/thumbnail/" ++ quote (drop 1 tbn));
                      ("alt", Show.title show ++ u " still")] []
              | _ =>
                  El "div" [] []
                     (grid_images (Show.title show) 0 thumbs
                      ++ replicate (4 - length thumbs) (El "div" [] [] []))
              end);
             El "div" [] [] (title_parts "h2" "div" (Show.title show)) ] ]).



End HomePage.

(** ** Statements about strings, paths and logs *)

(** A Unicode scalar value: a code point that is not a surrogate. *)
Definition scalar (c : Z) : Prop :=
  (0 <= c < 0xd800)%Z \/ (0xe000 <= c < 0x110000)%Z.


(** The bytes that [quote] leaves as they are: letters, digits and the
    characters of ["_.-~/"]. *)
Definition unreserved (b : Z) : bool :=
  ascii_alnum b || bool_decide (b ∈ u "_.-~/").

(** A lowercase hexadecimal digit. *)
Definition hex_char (c : Z) : Prop :=
  (48 <= c <= 57)%Z \/ (97 <= c <= 102)%Z.

(** The walks among the queries of a log. *)
Definition walks (log : list fs_query) : list str :=
  flat_map (fun q => match q with
                     | QRglob pattern => [pattern]
                     | QExists _ => []
                     end) log.

(** ** Laws of the character database

    Facts of the Unicode character database that the idempotence of
    [normalize] rests on.  A character is settled when it is its own
    decomposition, is not a nonspacing mark and is a starter (its
    combining class is 0); it is low when, moreover, it is its own
    lowercase and is not the capital sigma. *)

Definition settled `{!Unicode} (c : Z) : Prop :=
  canonical c = [c] /\ category_Mn c = false /\ combining c = 0%Z.

Definition low `{!Unicode} (c : Z) : Prop :=
  settled c /\ lower_full c = [c] /\ c <> 0x3a3%Z.

Class UnicodeLaws `{!Unicode} : Prop := {
  (** a full decomposition decomposes no further *)
  canonical_full : forall c d, In d (canonical c) -> canonical d = [d];
  (** the lowercase of a settled character is made of low characters *)
  lower_low : forall c d, settled c -> In d (lower_full c) -> low d;
  (** so are the two small sigmas, and the full stop *)
  sigma_low : low 0x3c2%Z /\ low 0x3c3%Z;
  full_stop_low : low 46%Z;
}.

#[global] Instance settled_dec `{!Unicode} c : Decision (settled c).
Proof. unfold settled. apply _. Defined.

#[global] Instance low_dec `{!Unicode} c : Decision (low c).
Proof. unfold low. apply _. Defined.

(** ** A filesystem given by the listing of its library

    [mkFS listing] is the filesystem whose library holds the entries of
    [listing], in the order a walk finds them.  Its patterns understand
    [*] and [?]; bracket expressions are not interpreted. *)

Inductive entry : Type :=
  | Dir
  | File (content : result Element).

Fixpoint glob (pattern : str) : str -> bool :=
  match pattern with
  | [] => fun n => bool_decide (n = [])
  | c :: pattern' =>
      if (c =? 42)%Z then
        fix star (n : str) : bool :=
          glob pattern' n ||
          match n with
          | [] => false
          | _ :: n' => star n'
          end
      else
        fun n =>
          match n with
          | [] => false
          | d :: n' => ((c =? 63)%Z || (c =? d)%Z) && glob pattern' n'
          end
  end.

Fixpoint listed (p : Path) (listing : list (Path * entry)) : option entry :=
  match listing with
  | [] => None
  | (q, e) :: rest => if decide (q = p) then Some e else listed p rest
  end.

Definition mkFS (listing : list (Path * entry)) : FS :=
  {| rglob pattern :=
       map fst (List.filter (fun pe => glob pattern (name pe.1)) listing);
     exists_ p := bool_decide (is_Some (listed p listing));
     is_file p := match listed p listing with
                  | Some (File _) => true
                  | _ => false
                  end;
     et_parse p := match listed p listing with
                   | Some (File content) => content
                   | _ => Raise OSError
                   end |}.

(** ** The character database on a few blocks

    The entries of the Unicode character database for Basic Latin, Latin-1
    Supplement, Latin Extended-A, Combining Diacritical Marks, Greek,
    the Arabic-Indic digits, the spaces U+2000 to U+200A and U+3000, and
    U+1B44, U+302E, U+1D165 and U+1D16D.  The statements that evaluate this
    instance only use strings over these blocks; a code point outside them
    is left as it is. *)

Fixpoint assoc {V : Type} (c : Z) (table : list (Z * V)) : option V :=
  match table with
  | [] => None
  | (k, v) :: rest => if (k =? c)%Z then Some v else assoc c rest
  end.

Definition in_ranges (c : Z) (ranges : list (Z * Z)) : bool :=
  existsb (fun r => (r.1 <=? c)%Z && (c <=? r.2)%Z) ranges.

Definition canonical_table : list (Z * list Z) :=
  [
    (0xc0, [0x41; 0x300]); (0xc1, [0x41; 0x301]); (0xc2, [0x41; 0x302]);
    (0xc3, [0x41; 0x303]); (0xc4, [0x41; 0x308]); (0xc5, [0x41; 0x30a]);
    (0xc7, [0x43; 0x327]); (0xc8, [0x45; 0x300]); (0xc9, [0x45; 0x301]);
    (0xca, [0x45; 0x302]); (0xcb, [0x45; 0x308]); (0xcc, [0x49; 0x300]);
    (0xcd, [0x49; 0x301]); (0xce, [0x49; 0x302]); (0xcf, [0x49; 0x308]);
    (0xd1, [0x4e; 0x303]); (0xd2, [0x4f; 0x300]); (0xd3, [0x4f; 0x301]);
    (0xd4, [0x4f; 0x302]); (0xd5, [0x4f; 0x303]); (0xd6, [0x4f; 0x308]);
    (0xd9, [0x55; 0x300]); (0xda, [0x55; 0x301]); (0xdb, [0x55; 0x302]);
    (0xdc, [0x55; 0x308]); (0xdd, [0x59; 0x301]); (0xe0, [0x61; 0x300]);
    (0xe1, [0x61; 0x301]); (0xe2, [0x61; 0x302]); (0xe3, [0x61; 0x303]);
    (0xe4, [0x61; 0x308]); (0xe5, [0x61; 0x30a]); (0xe7, [0x63; 0x327]);
    (0xe8, [0x65; 0x300]); (0xe9, [0x65; 0x301]); (0xea, [0x65; 0x302]);
    (0xeb, [0x65; 0x308]); (0xec, [0x69; 0x300]); (0xed, [0x69; 0x301]);
    (0xee, [0x69; 0x302]); (0xef, [0x69; 0x308]); (0xf1, [0x6e; 0x303]);
    (0xf2, [0x6f; 0x300]); (0xf3, [0x6f; 0x301]); (0xf4, [0x6f; 0x302]);
    (0xf5, [0x6f; 0x303]); (0xf6, [0x6f; 0x308]); (0xf9, [0x75; 0x300]);
    (0xfa, [0x75; 0x301]); (0xfb, [0x75; 0x302]); (0xfc, [0x75; 0x308]);
    (0xfd, [0x79; 0x301]); (0xff, [0x79; 0x308]); (0x100, [0x41; 0x304]);
    (0x101, [0x61; 0x304]); (0x102, [0x41; 0x306]); (0x103, [0x61; 0x306]);
    (0x104, [0x41; 0x328]); (0x105, [0x61; 0x328]); (0x106, [0x43; 0x301]);
    (0x107, [0x63; 0x301]); (0x108, [0x43; 0x302]); (0x109, [0x63; 0x302]);
    (0x10a, [0x43; 0x307]); (0x10b, [0x63; 0x307]); (0x10c, [0x43; 0x30c]);
    (0x10d, [0x63; 0x30c]); (0x10e, [0x44; 0x30c]); (0x10f, [0x64; 0x30c]);
    (0x112, [0x45; 0x304]); (0x113, [0x65; 0x304]); (0x114, [0x45; 0x306]);
    (0x115, [0x65; 0x306]); (0x116, [0x45; 0x307]); (0x117, [0x65; 0x307]);
    (0x118, [0x45; 0x328]); (0x119, [0x65; 0x328]); (0x11a, [0x45; 0x30c]);
    (0x11b, [0x65; 0x30c]); (0x11c, [0x47; 0x302]); (0x11d, [0x67; 0x302]);
    (0x11e, [0x47; 0x306]); (0x11f, [0x67; 0x306]); (0x120, [0x47; 0x307]);
    (0x121, [0x67; 0x307]); (0x122, [0x47; 0x327]); (0x123, [0x67; 0x327]);
    (0x124, [0x48; 0x302]); (0x125, [0x68; 0x302]); (0x128, [0x49; 0x303]);
    (0x129, [0x69; 0x303]); (0x12a, [0x49; 0x304]); (0x12b, [0x69; 0x304]);
    (0x12c, [0x49; 0x306]); (0x12d, [0x69; 0x306]); (0x12e, [0x49; 0x328]);
    (0x12f, [0x69; 0x328]); (0x130, [0x49; 0x307]); (0x134, [0x4a; 0x302]);
    (0x135, [0x6a; 0x302]); (0x136, [0x4b; 0x327]); (0x137, [0x6b; 0x327]);
    (0x139, [0x4c; 0x301]); (0x13a, [0x6c; 0x301]); (0x13b, [0x4c; 0x327]);
    (0x13c, [0x6c; 0x327]); (0x13d, [0x4c; 0x30c]); (0x13e, [0x6c; 0x30c]);
    (0x143, [0x4e; 0x301]); (0x144, [0x6e; 0x301]); (0x145, [0x4e; 0x327]);
    (0x146, [0x6e; 0x327]); (0x147, [0x4e; 0x30c]); (0x148, [0x6e; 0x30c]);
    (0x14c, [0x4f; 0x304]); (0x14d, [0x6f; 0x304]); (0x14e, [0x4f; 0x306]);
    (0x14f, [0x6f; 0x306]); (0x150, [0x4f; 0x30b]); (0x151, [0x6f; 0x30b]);
    (0x154, [0x52; 0x301]); (0x155, [0x72; 0x301]); (0x156, [0x52; 0x327]);
    (0x157, [0x72; 0x327]); (0x158, [0x52; 0x30c]); (0x159, [0x72; 0x30c]);
    (0x15a, [0x53; 0x301]); (0x15b, [0x73; 0x301]); (0x15c, [0x53; 0x302]);
    (0x15d, [0x73; 0x302]); (0x15e, [0x53; 0x327]); (0x15f, [0x73; 0x327]);
    (0x160, [0x53; 0x30c]); (0x161, [0x73; 0x30c]); (0x162, [0x54; 0x327]);
    (0x163, [0x74; 0x327]); (0x164, [0x54; 0x30c]); (0x165, [0x74; 0x30c]);
    (0x168, [0x55; 0x303]); (0x169, [0x75; 0x303]); (0x16a, [0x55; 0x304]);
    (0x16b, [0x75; 0x304]); (0x16c, [0x55; 0x306]); (0x16d, [0x75; 0x306]);
    (0x16e, [0x55; 0x30a]); (0x16f, [0x75; 0x30a]); (0x170, [0x55; 0x30b]);
    (0x171, [0x75; 0x30b]); (0x172, [0x55; 0x328]); (0x173, [0x75; 0x328]);
    (0x174, [0x57; 0x302]); (0x175, [0x77; 0x302]); (0x176, [0x59; 0x302]);
    (0x177, [0x79; 0x302]); (0x178, [0x59; 0x308]); (0x179, [0x5a; 0x301]);
    (0x17a, [0x7a; 0x301]); (0x17b, [0x5a; 0x307]); (0x17c, [0x7a; 0x307]);
    (0x17d, [0x5a; 0x30c]); (0x17e, [0x7a; 0x30c]); (0x340, [0x300]);
    (0x341, [0x301]); (0x343, [0x313]); (0x344, [0x308; 0x301]);
    (0x386, [0x391; 0x301]); (0x387, [0xb7]); (0x388, [0x395; 0x301]);
    (0x389, [0x397; 0x301]); (0x38a, [0x399; 0x301]); (0x38c, [0x39f; 0x301]);
    (0x38e, [0x3a5; 0x301]); (0x38f, [0x3a9; 0x301]); (0x390, [0x3b9; 0x308; 0x301]);
    (0x3aa, [0x399; 0x308]); (0x3ab, [0x3a5; 0x308]); (0x3ac, [0x3b1; 0x301]);
    (0x3ad, [0x3b5; 0x301]); (0x3ae, [0x3b7; 0x301]); (0x3af, [0x3b9; 0x301]);
    (0x3b0, [0x3c5; 0x308; 0x301]); (0x3ca, [0x3b9; 0x308]); (0x3cb, [0x3c5; 0x308]);
    (0x3cc, [0x3bf; 0x301]); (0x3cd, [0x3c5; 0x301]); (0x3ce, [0x3c9; 0x301]);
    (0x2000, [0x2002]); (0x2001, [0x2003]) ]%Z.

Definition combining_table : list (Z * list (Z * Z)) :=
  [
    (1, [(0x334, 0x338)]);
    (9, [(0x1b44, 0x1b44)]);
    (202, [(0x321, 0x322); (0x327, 0x328)]);
    (216, [(0x31b, 0x31b); (0x1d165, 0x1d165)]);
    (220, [(0x316, 0x319); (0x31c, 0x320); (0x323, 0x326); (0x329, 0x333); (0x339, 0x33c); (0x347, 0x349); (0x34d, 0x34e); (0x353, 0x356); (0x359, 0x35a)]);
    (224, [(0x302e, 0x302e)]);
    (226, [(0x1d16d, 0x1d16d)]);
    (230, [(0x300, 0x314); (0x33d, 0x344); (0x346, 0x346); (0x34a, 0x34c); (0x350, 0x352); (0x357, 0x357); (0x35b, 0x35b); (0x363, 0x36f)]);
    (232, [(0x315, 0x315); (0x31a, 0x31a); (0x358, 0x358)]);
    (233, [(0x35c, 0x35c); (0x35f, 0x35f); (0x362, 0x362)]);
    (234, [(0x35d, 0x35e); (0x360, 0x361)]);
    (240, [(0x345, 0x345)]) ]%Z.

Definition Mn_ranges : list (Z * Z) :=
  [
    (0x300, 0x36f) ]%Z.

Definition lower_table : list (Z * list Z) :=
  [
    (0x41, [0x61]); (0x42, [0x62]); (0x43, [0x63]); (0x44, [0x64]);
    (0x45, [0x65]); (0x46, [0x66]); (0x47, [0x67]); (0x48, [0x68]);
    (0x49, [0x69]); (0x4a, [0x6a]); (0x4b, [0x6b]); (0x4c, [0x6c]);
    (0x4d, [0x6d]); (0x4e, [0x6e]); (0x4f, [0x6f]); (0x50, [0x70]);
    (0x51, [0x71]); (0x52, [0x72]); (0x53, [0x73]); (0x54, [0x74]);
    (0x55, [0x75]); (0x56, [0x76]); (0x57, [0x77]); (0x58, [0x78]);
    (0x59, [0x79]); (0x5a, [0x7a]); (0xc0, [0xe0]); (0xc1, [0xe1]);
    (0xc2, [0xe2]); (0xc3, [0xe3]); (0xc4, [0xe4]); (0xc5, [0xe5]);
    (0xc6, [0xe6]); (0xc7, [0xe7]); (0xc8, [0xe8]); (0xc9, [0xe9]);
    (0xca, [0xea]); (0xcb, [0xeb]); (0xcc, [0xec]); (0xcd, [0xed]);
    (0xce, [0xee]); (0xcf, [0xef]); (0xd0, [0xf0]); (0xd1, [0xf1]);
    (0xd2, [0xf2]); (0xd3, [0xf3]); (0xd4, [0xf4]); (0xd5, [0xf5]);
    (0xd6, [0xf6]); (0xd8, [0xf8]); (0xd9, [0xf9]); (0xda, [0xfa]);
    (0xdb, [0xfb]); (0xdc, [0xfc]); (0xdd, [0xfd]); (0xde, [0xfe]);
    (0x100, [0x101]); (0x102, [0x103]); (0x104, [0x105]); (0x106, [0x107]);
    (0x108, [0x109]); (0x10a, [0x10b]); (0x10c, [0x10d]); (0x10e, [0x10f]);
    (0x110, [0x111]); (0x112, [0x113]); (0x114, [0x115]); (0x116, [0x117]);
    (0x118, [0x119]); (0x11a, [0x11b]); (0x11c, [0x11d]); (0x11e, [0x11f]);
    (0x120, [0x121]); (0x122, [0x123]); (0x124, [0x125]); (0x126, [0x127]);
    (0x128, [0x129]); (0x12a, [0x12b]); (0x12c, [0x12d]); (0x12e, [0x12f]);
    (0x130, [0x69; 0x307]); (0x132, [0x133]); (0x134, [0x135]); (0x136, [0x137]);
    (0x139, [0x13a]); (0x13b, [0x13c]); (0x13d, [0x13e]); (0x13f, [0x140]);
    (0x141, [0x142]); (0x143, [0x144]); (0x145, [0x146]); (0x147, [0x148]);
    (0x14a, [0x14b]); (0x14c, [0x14d]); (0x14e, [0x14f]); (0x150, [0x151]);
    (0x152, [0x153]); (0x154, [0x155]); (0x156, [0x157]); (0x158, [0x159]);
    (0x15a, [0x15b]); (0x15c, [0x15d]); (0x15e, [0x15f]); (0x160, [0x161]);
    (0x162, [0x163]); (0x164, [0x165]); (0x166, [0x167]); (0x168, [0x169]);
    (0x16a, [0x16b]); (0x16c, [0x16d]); (0x16e, [0x16f]); (0x170, [0x171]);
    (0x172, [0x173]); (0x174, [0x175]); (0x176, [0x177]); (0x178, [0xff]);
    (0x179, [0x17a]); (0x17b, [0x17c]); (0x17d, [0x17e]); (0x386, [0x3ac]);
    (0x388, [0x3ad]); (0x389, [0x3ae]); (0x38a, [0x3af]); (0x38c, [0x3cc]);
    (0x38e, [0x3cd]); (0x38f, [0x3ce]); (0x391, [0x3b1]); (0x392, [0x3b2]);
    (0x393, [0x3b3]); (0x394, [0x3b4]); (0x395, [0x3b5]); (0x396, [0x3b6]);
    (0x397, [0x3b7]); (0x398, [0x3b8]); (0x399, [0x3b9]); (0x39a, [0x3ba]);
    (0x39b, [0x3bb]); (0x39c, [0x3bc]); (0x39d, [0x3bd]); (0x39e, [0x3be]);
    (0x39f, [0x3bf]); (0x3a0, [0x3c0]); (0x3a1, [0x3c1]); (0x3a3, [0x3c3]);
    (0x3a4, [0x3c4]);
    (0x3a5, [0x3c5]); (0x3a6, [0x3c6]); (0x3a7, [0x3c7]); (0x3a8, [0x3c8]);
    (0x3a9, [0x3c9]); (0x3aa, [0x3ca]); (0x3ab, [0x3cb]) ]%Z.

Definition cased_ranges : list (Z * Z) :=
  [
    (0x41, 0x5a); (0x61, 0x7a); (0xaa, 0xaa); (0xb5, 0xb5); (0xba, 0xba); (0xc0, 0xd6);
    (0xd8, 0xf6); (0xf8, 0x17f); (0x345, 0x345); (0x386, 0x386); (0x388, 0x38a); (0x38c, 0x38c);
    (0x38e, 0x3a1); (0x3a3, 0x3ce) ]%Z.

Definition case_ignorable_ranges : list (Z * Z) :=
  [
    (0x27, 0x27); (0x2e, 0x2e); (0x3a, 0x3a); (0x5e, 0x5e); (0x60, 0x60); (0xa8, 0xa8);
    (0xad, 0xad); (0xaf, 0xaf); (0xb4, 0xb4); (0xb7, 0xb8); (0x300, 0x36f); (0x387, 0x387) ]%Z.

Definition decimal_ranges : list (Z * Z) :=
  [
    (0x30, 0x39); (0x660, 0x669) ]%Z.

Definition whitespace_ranges : list (Z * Z) :=
  [
    (0x9, 0xd); (0x1c, 0x20); (0x85, 0x85); (0xa0, 0xa0); (0x2000, 0x200a); (0x3000, 0x3000) ]%Z.

#[global] Instance unicode_blocks : Unicode := {|
  canonical c := default [c] (assoc c canonical_table);
  combining c :=
    match List.find (fun kr => in_ranges c kr.2) combining_table with
    | Some kr => kr.1
    | None => 0%Z
    end;
  category_Mn c := in_ranges c Mn_ranges;
  lower_full c := default [c] (assoc c lower_table);
  cased c := in_ranges c cased_ranges;
  case_ignorable c := in_ranges c case_ignorable_ranges;
  decimal c :=
    match List.find (fun r => (r.1 <=? c)%Z && (c <=? r.2)%Z) decimal_ranges with
    | Some r => Some (c - r.1)%Z
    | None => None
    end;
  whitespace c := in_ranges c whitespace_ranges;
|}.


(** ** Decidable equality of the models *)

#[global] Instance exn_eq_dec : EqDecision exn.
Proof. solve_decision. Defined.

#[global] Instance result_eq_dec {A} `{EqDecision A} : EqDecision (result A).
Proof. solve_decision. Defined.

#[global] Instance Episode_eq_dec : EqDecision Episode.t.
Proof. solve_decision. Defined.

#[global] Instance Show_eq_dec : EqDecision Show.t.
Proof. solve_decision. Defined.

#[global] Instance fs_query_eq_dec : EqDecision fs_query.
Proof. solve_decision. Defined.

(** ** Statements about the catalog *)

(** The invariant of the catalog: every show sits under the key of its
    title, and so does every episode under the key of its show title. *)
Definition keyed (k : str) (s : Show.t) : Prop :=
  k = show_key (Show.title s)
  /\ forall e, In e (Show.episodes s) -> show_key (Episode.showtitle e) = k.

Definition well_keyed (shows : catalog) : Prop :=
  forall k s, In (k, s) shows -> keyed k s.

(** ** Example libraries *)

(** A child element that holds text only. *)
Definition leaf (tagname value : string) : Element :=
  mkElement (u tagname) (Some (u value)) [].

(** The library of one show "Foo" with one episode: a [tvshow] descriptor
    and an [episodedetails] descriptor, found in either order. *)
Definition foo_show_nfo : Path := [u "lib"; u "Foo"; u "tvshow.nfo"].
Definition foo_episode_nfo : Path := [u "lib"; u "Foo"; u "e1.nfo"].

Definition foo_tvshow : Element :=
  mkElement (u "tvshow") None [leaf "title" "Foo"; leaf "plot" "About Foo"].

Definition foo_episodedetails : Element :=
  mkElement (u "episodedetails") None
    [leaf "showtitle" "Foo"; leaf "title" "Pilot"; leaf "season" "1";
     leaf "episode" "1"].

Definition foo_show_first : FS :=
  mkFS [ ([u "lib"], Dir); ([u "lib"; u "Foo"], Dir);
         (foo_show_nfo, File (Ok foo_tvshow));
         (foo_episode_nfo, File (Ok foo_episodedetails)) ].

Definition foo_episode_first : FS :=
  mkFS [ ([u "lib"], Dir); ([u "lib"; u "Foo"], Dir);
         (foo_episode_nfo, File (Ok foo_episodedetails));
         (foo_show_nfo, File (Ok foo_tvshow)) ].

Definition foo_pilot : Episode.t :=
  Episode.mk (u "Foo") (u "Pilot") (u "1") (u "1") [] (Some []) None None.

(** A library whose one episode has the season "Special", and a
    thumbnail next to its descriptor. *)
Definition special_nfo : Path := [u "lib"; u "Foo"; u "xmas.nfo"].

Definition special_episodedetails : Element :=
  mkElement (u "episodedetails") None
    [leaf "showtitle" "Foo"; leaf "title" "Xmas"; leaf "season" "Special";
     leaf "episode" "1"].

Definition special_library : FS :=
  mkFS [ ([u "lib"], Dir); ([u "lib"; u "Foo"], Dir);
         (special_nfo, File (Ok special_episodedetails));
         ([u "lib"; u "Foo"; u "xmas.tbn"], File (Raise ParseError)) ].

Definition special_episode : Episode.t :=
  Episode.mk (u "Foo") (u "Xmas") (u "Special") (u "1") [] (Some []) None
             (Some (u "/lib/Foo/xmas.tbn")).

Definition special_catalog : catalog :=
  [(show_key (u "Foo"), Show.mk (u "Foo") [] None [special_episode])].

(** The descriptor [/lib/Show/ep.nfo] with two neighbours of the same
    stem, [ep.mkv] and [ep.mp4]; and with the neighbour [ep.mp4] only. *)
Definition ep_nfo : Path := [u "lib"; u "Show"; u "ep.nfo"].
Definition ep_mp4 : Path := [u "lib"; u "Show"; u "ep.mp4"].
Definition ep_mkv : Path := [u "lib"; u "Show"; u "ep.mkv"].

Definition ep_two_neighbours : FS :=
  mkFS [ ([u "lib"], Dir); ([u "lib"; u "Show"], Dir);
         (ep_nfo, File (Raise ParseError));
         (ep_mkv, File (Raise ParseError));
         (ep_mp4, File (Raise ParseError)) ].

Definition ep_one_neighbour : FS :=
  mkFS [ ([u "lib"], Dir); ([u "lib"; u "Show"], Dir);
         (ep_nfo, File (Raise ParseError));
         (ep_mp4, File (Raise ParseError)) ].

(** An iteration order of [VIDEO_EXTENSIONS] with [.mkv] before [.mp4]. *)
Definition mkv_first : list str := [u ".mkv"; u ".mp4"; u ".webm"; u ".avi"].

(** The episode "Pilot", season 1 episode 1 of "My Show": its descriptor,
    the mapping parsed from it, and two libraries that hold it with one
    video each, named [myshow.s01e01.mkv] and [my.show.s01e01.mkv]. *)
Definition pilot_nfo : Path := [u "lib"; u "My Show"; u "pilot.nfo"].

Definition pilot_episodedetails : Element :=
  mkElement (u "episodedetails") None
    [leaf "showtitle" "My Show"; leaf "title" "Pilot"; leaf "season" "1";
     leaf "episode" "1"].

Definition pilot_meta : gmap string str :=
  <["type" := u "episode"]>
  (<["showtitle" := u "My Show"]>
  (<["title" := u "Pilot"]>
  (<["season" := u "1"]>
  (<["episode" := u "1"]>
  (<["plot" := []]>
  (<["aired" := []]> ∅)))))).

Definition myshow_video : Path := [u "lib"; u "My Show"; u "myshow.s01e01.mkv"].

Definition myshow_library : FS :=
  mkFS [ ([u "lib"], Dir); ([u "lib"; u "My Show"], Dir);
         (pilot_nfo, File (Ok pilot_episodedetails));
         (myshow_video, File (Raise ParseError)) ].


(** "Crème Brûlée, S'il Vous Plaît!" *)
Definition creme_brulee : str :=
  u "Cr" ++ [0xe8%Z] ++ u "me Br" ++ [0xfb%Z] ++ u "l" ++ [0xe9%Z]
    ++ u "e, S'il Vous Pla" ++ [0xee%Z] ++ u "t!".

Definition episode_2_plain : Episode.t :=
  Episode.mk (u "Foo: Bar") (u "Two") (u "1") (u "2") [] (Some []) None None.


(** Two records of the same episode with different videos, in one show. *)
Definition pilot_first : Episode.t :=
  Episode.mk (u "Foo") (u "Pilot") (u "1") (u "1") [] (Some [])
             (Some (u "/lib/Foo/a.mkv")) None.

Definition pilot_second : Episode.t :=
  Episode.mk (u "Foo") (u "Pilot") (u "1") (u "1") [] (Some [])
             (Some (u "/lib/Foo/b.mkv")) None.

Definition twin_catalog : catalog :=
  [(show_key (u "Foo"), Show.mk (u "Foo") [] None [pilot_first; pilot_second])].

(** A show with two thumbnails among its three episodes. *)
Definition thumbs_show : Show.t :=
  Show.mk (u "Foo: Bar") [] None
    [ Episode.mk (u "Foo: Bar") (u "One") (u "1") (u "1") [] (Some []) None
                 (Some (u "/lib/Foo/one.tbn"));
      episode_2_plain;
      Episode.mk (u "Foo: Bar") (u "Three") (u "1") (u "3") [] (Some []) None
                 (Some (u "/lib/Foo/three.tbn")) ].

(** The mapping of an [episodedetails] descriptor without children. *)
Definition untitled_meta : gmap string str :=
  <["type" := u "episode"]>
  (<["showtitle" := []]>
  (<["title" := []]>
  (<["season" := []]>
  (<["episode" := []]>
  (<["plot" := []]>
  (<["aired" := []]> ∅)))))).

(** A show whose episodes 2 and 10 of season 1 were found in that order. *)
Definition episode_2 : Episode.t :=
  Episode.mk (u "Foo") (u "Second") (u "1") (u "2") [] (Some []) None None.

Definition episode_10 : Episode.t :=
  Episode.mk (u "Foo") (u "Tenth") (u "1") (u "10") [] (Some []) None None.

Definition numbered_show : Show.t :=
  Show.mk (u "Foo") [] None [episode_2; episode_10].

Definition numbered_catalog : catalog := [(show_key (u "Foo"), numbered_show)].

Definition foo_catalog : catalog :=
  [(show_key (u "Foo"), Show.mk (u "Foo") (u "About Foo") (Some []) [foo_pilot])].

(** * Properties *)

(** ** Library functions, checked on known values *)

Example md5_empty : MD5.hexdigest [] = u "d41d8cd98f00b204e9800998ecf8427e".
Proof. vm_compute. reflexivity. Qed.

Example md5_abc :
  MD5.hexdigest (encode (u "abc")) = u "900150983cd24fb0d6963f7d28e17f72".
Proof. vm_compute. reflexivity. Qed.

Example md5_two_blocks :
  MD5.hexdigest (encode (replicate 70 97%Z)) = u "0f5c6c4e740bfcc08c3c26ccb2673d46".
Proof. vm_compute. reflexivity. Qed.

Example show_key_Foo : show_key (u "Foo") = u "1356c67d".
Proof. vm_compute. reflexivity. Qed.

Example suffix_stem :
  suffix [u "lib"; u "a.b.NFO"] = u ".NFO" /\ stem [u "lib"; u "a.b.NFO"] = u "a.b"
  /\ suffix [u "lib"; u ".nfo"] = [] /\ stem [u "lib"; u "x."] = u "x."
  /\ with_suffix [u "lib"; u "ep.nfo"] (u ".mp4") = Ok [u "lib"; u "ep.mp4"].
Proof. vm_compute. repeat split; reflexivity. Qed.

Example unquote_escapes :
  unquote (u "My%20Show/%e2%82%ac%FF%zz") = u "My Show/" ++ [0x20ac; 0xfffd]%Z ++ u "%zz"
  /\ quote (u "My Show/a+b.mp4") = u "My%20Show/a%2Bb.mp4".
Proof. vm_compute. split; reflexivity. Qed.

Example nfd_reorders :
  nfd [0xe9; 0x61; 0x301; 0x327]%Z = [0x65; 0x301; 0x61; 0x327; 0x301]%Z
  /\ lower [0x391; 0x3a3; 0x20; 0x3a3; 0x41]%Z = [0x3b1; 0x3c2; 0x20; 0x3c3; 0x61]%Z.
Proof. vm_compute. split; reflexivity. Qed.

Example py_int_values :
  py_int (u " +1_0 ") = Ok 10%Z /\ py_int [0x661; 0x662]%Z = Ok 12%Z
  /\ py_int (u "1__0") = Raise ValueError /\ py_int (u "S01") = Raise ValueError.
Proof. vm_compute. repeat split; reflexivity. Qed.

(** ** The result monad *)

Lemma bind_Ok {A B} (m : result A) (k : A -> result B) (b : B) :
  m ≫= k = Ok b -> exists a, m = Ok a /\ k a = Ok b.
Proof. destruct m as [a|e]; simpl; [eauto | discriminate]. Qed.

Lemma getitem_Ok meta key v : getitem meta key = Ok v -> meta !! key = Some v.
Proof. unfold getitem. destruct (meta !! key); congruence. Qed.

(** ** Descriptor parsing *)

Section Parser.
Variable fs : FS.
Variable nfo : Path.


(** The only exceptions that leave the parser are those of [ET.parse]
    other than [ParseError]. *)
Lemma parse_nfo_file_raises e :
  parse_nfo_file fs nfo = Raise e -> et_parse fs nfo = Raise e /\ e <> ParseError.
Proof.
  unfold parse_nfo_file.
  destruct (et_parse fs nfo) as [root|e'].
  - repeat case_decide; discriminate.
  - destruct e'; try discriminate; intros [= <-]; split; congruence.
Qed.
End Parser.


(** ** The catalog *)

Lemma keyed_append k s e :
  keyed k s -> show_key (Episode.showtitle e) = k -> keyed k (append_episode e s).
Proof.
  intros [Hk He] Hnew. split; [exact Hk|].
  simpl. intros e' [Hin | [<- | []]]%in_app_or; auto.
Qed.

Lemma well_keyed_dict_set key show shows :
  well_keyed shows -> keyed key show -> well_keyed (dict_set key show shows).
Proof.
  intros Hwk Hshow. induction shows as [|[k v] rest IH]; simpl.
  - intros k s [[= <- <-]|[]]. exact Hshow.
  - assert (well_keyed rest) as Hrest by (intros ???; apply Hwk; right; assumption).
    destruct (decide (k = key)) as [->|Hne].
    + intros k' s [[= <- <-]|Hin]; [exact Hshow | apply Hrest, Hin].
    + intros k' s [[= <- <-]|Hin]; [apply Hwk; left; reflexivity | apply IH; assumption].
Qed.

Lemma well_keyed_setdefault_append key fresh ep shows :
  well_keyed shows -> keyed key fresh ->
  show_key (Episode.showtitle ep) = key ->
  well_keyed (setdefault_append key fresh ep shows).
Proof.
  intros Hwk Hfresh Hep. induction shows as [|[k v] rest IH]; simpl.
  - intros k s [[= <- <-]|[]]. apply keyed_append; assumption.
  - assert (well_keyed rest) as Hrest by (intros ???; apply Hwk; right; assumption).
    destruct (decide (k = key)) as [->|Hne].
    + intros k' s [[= <- <-]|Hin]; [|apply Hrest, Hin].
      apply keyed_append; [apply Hwk; left; reflexivity | assumption].
    + intros k' s [[= <- <-]|Hin]; [apply Hwk; left; reflexivity | apply IH; assumption].
Qed.

Section Scanner.
Context `{!Unicode}.
Variable video_order : list str.
Variable fs : FS.

Lemma scan_step_well_keyed shows nfo shows' :
  well_keyed shows -> scan_step video_order fs shows nfo = Ok shows' ->
  well_keyed shows'.
Proof.
  intros Hwk. unfold scan_step.
  destruct (negb (is_file fs nfo)); [intros [= <-]; exact Hwk|].
  intros (meta & _ & Hstep)%bind_Ok.
  destruct (decide (meta !! "type" = Some (u "show"))) as [_|_].
  - apply bind_Ok in Hstep as (title & _ & Hstep).
    apply bind_Ok in Hstep as (plot & _ & Hstep).
    apply bind_Ok in Hstep as (thumb & _ & [= <-]).
    apply well_keyed_dict_set; [exact Hwk|].
    split; [reflexivity | intros e []].
  - destruct (decide (meta !! "type" = Some (u "episode"))) as [_|_];
      [|injection Hstep as <-; exact Hwk].
    apply bind_Ok in Hstep as (showtitle & Hst & Hstep).
    apply bind_Ok in Hstep as (title & _ & Hstep).
    apply bind_Ok in Hstep as (season & _ & Hstep).
    apply bind_Ok in Hstep as (episode & _ & Hstep).
    apply bind_Ok in Hstep as (plot & _ & Hstep).
    apply bind_Ok in Hstep as (video & _ & Hstep).
    apply bind_Ok in Hstep as (thumbnail & _ & Hstep).
    apply bind_Ok in Hstep as (showtitle' & Hst' & [= <-]).
    assert (showtitle' = showtitle) as -> by congruence.
    apply well_keyed_setdefault_append; [exact Hwk | | reflexivity].
    split; [reflexivity | intros e []].
Qed.

Lemma scan_loop_well_keyed nfos : forall shows shows',
  well_keyed shows -> scan_loop video_order fs shows nfos = Ok shows' ->
  well_keyed shows'.
Proof.
  induction nfos as [|nfo rest IH]; simpl; intros shows shows' Hwk Hloop.
  - injection Hloop as <-. exact Hwk.
  - apply bind_Ok in Hloop as (mid & Hstep & Hloop).
    eapply IH; [|exact Hloop].
    eapply scan_step_well_keyed; eassumption.
Qed.

(** C10: in a catalog that [scan] returns, every show is stored under
    the key of its own title, and every episode of a show is stored under
    the key of the episode's show title. *)
Theorem scan_well_keyed shows :
  scan video_order fs = Ok shows ->
  forall k s, In (k, s) shows ->
    k = show_key (Show.title s)
    /\ forall e, In e (Show.episodes s) -> show_key (Episode.showtitle e) = k.
Proof.
  intros Hscan. eapply scan_loop_well_keyed; [|exact Hscan].
  intros k s [].
Qed.
End Scanner.

(** Every iteration order of [VIDEO_EXTENSIONS] is one of its 24
    permutations. *)
Lemma for_all_orders (P : list str -> Prop) `{!forall order, Decision (P order)} :
  forallb (fun order => bool_decide (P order)) (permutations VIDEO_EXTENSIONS) = true ->
  forall order, order ≡ₚ VIDEO_EXTENSIONS -> P order.
Proof.
  intros Hall order Hperm.
  symmetry in Hperm. apply permutations_Permutation in Hperm.
  rewrite forallb_forall in Hall.
  apply list_elem_of_In in Hperm.
  exact (proj1 (bool_decide_eq_true _) (Hall order Hperm)).
Qed.

(** C1: the scan of the library of "Foo" depends on the order in which
    the walk finds the two descriptors.  When the [tvshow] descriptor
    comes first the catalog is the one show, keyed by the hash of "Foo",
    with its one episode; when the [episodedetails] descriptor comes first
    the show stored for the [tvshow] descriptor replaces the show that
    held the episode, and the catalog is the one show with no episode. *)
Theorem scan_foo_depends_on_order :
  forall video_order, video_order ≡ₚ VIDEO_EXTENSIONS ->
    scan video_order foo_show_first
    = Ok [(show_key (u "Foo"),
           Show.mk (u "Foo") (u "About Foo") (Some []) [foo_pilot])]
    /\ scan video_order foo_episode_first
       = Ok [(show_key (u "Foo"), Show.mk (u "Foo") (u "About Foo") (Some []) [])].
Proof.
  refine (for_all_orders (fun order => _ /\ _) _). vm_compute. reflexivity.
Qed.

Lemma scan_foo_depends_on_order_witness :
  VIDEO_EXTENSIONS ≡ₚ VIDEO_EXTENSIONS
  /\ scan VIDEO_EXTENSIONS foo_show_first
     = Ok [(show_key (u "Foo"),
            Show.mk (u "Foo") (u "About Foo") (Some []) [foo_pilot])]
  /\ scan VIDEO_EXTENSIONS foo_episode_first
     = Ok [(show_key (u "Foo"), Show.mk (u "Foo") (u "About Foo") (Some []) [])].
Proof.
  split.
  - apply Permutation_refl.
  - exact (scan_foo_depends_on_order VIDEO_EXTENSIONS (Permutation_refl _)).
Defined.

Lemma scan_well_keyed_witness :
  scan VIDEO_EXTENSIONS foo_show_first = Ok foo_catalog
  /\ forall k s, In (k, s) foo_catalog ->
       k = show_key (Show.title s)
       /\ forall e, In e (Show.episodes s) -> show_key (Episode.showtitle e) = k.
Proof.
  assert (scan VIDEO_EXTENSIONS foo_show_first = Ok foo_catalog) as Hscan
    by (vm_compute; reflexivity).
  split; [exact Hscan|].
  exact (scan_well_keyed VIDEO_EXTENSIONS foo_show_first foo_catalog Hscan).
Defined.

(** ** Routes *)

Lemma dict_get_None key shows :
  (forall s, ~ In (key, s) shows) -> dict_get key shows = None.
Proof.
  induction shows as [|[k v] rest IH]; simpl; intros Hnot; [reflexivity|].
  destruct (decide (k = key)) as [->|_].
  - exfalso. apply (Hnot v). left. reflexivity.
  - apply IH. intros s Hin. apply (Hnot s). right. exact Hin.
Qed.

Lemma find_none_iff {A} (f : A -> bool) (l : list A) :
  (forall x, In x l -> f x = false) -> List.find f l = None.
Proof.
  induction l as [|a l IH]; simpl; intros Hall; [reflexivity|].
  rewrite (Hall a (or_introl eq_refl)). apply IH. intros x Hx. apply Hall. right. exact Hx.
Qed.

Section Routes.
Context `{!Unicode}.

(** [int] raises nothing but [ValueError]. *)
Lemma py_int_raises s e : py_int s = Raise e -> e = ValueError.
Proof.
  unfold py_int.
  destruct (match lstrip_space (map to_ascii_number s) with
            | 43%Z :: r => (1%Z, r)
            | 45%Z :: r => ((-1)%Z, r)
            | _ => (1%Z, lstrip_space (map to_ascii_number s))
            end) as [sign a].
  destruct a as [|c rest]; [congruence|].
  destruct (ascii_digit c); [|congruence].
  destruct (int_digits (c - 48) rest); [|congruence].
  case_decide; congruence.
Qed.

Lemma py_int_rejects s :
  (forall n, py_int s <> Ok n) -> py_int s = Raise ValueError.
Proof.
  intros Hno. destruct (py_int s) as [n|e] eqn:Hint.
  - exfalso. exact (Hno n eq_refl).
  - f_equal. exact (py_int_raises s e Hint).
Qed.

Lemma season_letter_rejects s :
  (forall n, py_int s <> Ok n) -> season_letter s = Raise ValueError.
Proof.
  intros Hno. unfold season_letter. rewrite (py_int_rejects s Hno). reflexivity.
Qed.

Lemma episode_detail_raises shows episode_hash ep :
  List.find (fun e => bool_decide (Episode.slug e = episode_hash)) (all_episodes shows)
  = Some ep ->
  truthy (Episode.season ep) = true -> truthy (Episode.episode ep) = true ->
  (forall n, py_int (Episode.season ep) <> Ok n) ->
  episode_detail shows episode_hash = Raise ValueError.
Proof.
  intros Hfind Hseason Hepisode Hno. unfold episode_detail.
  rewrite Hfind, Hseason, Hepisode. simpl.
  rewrite (season_letter_rejects _ Hno). reflexivity.
Qed.

Lemma episode_card_raises ep :
  truthy_opt (Episode.thumbnail ep) = true ->
  truthy (Episode.season ep) = true -> truthy (Episode.episode ep) = true ->
  (forall n, py_int (Episode.season ep) <> Ok n) ->
  episode_card ep = Raise ValueError.
Proof.
  intros Hthumb Hseason Hepisode Hno. unfold episode_card.
  rewrite Hthumb, Hseason, Hepisode. simpl.
  rewrite (season_letter_rejects _ Hno). reflexivity.
Qed.

(** "Special" is not accepted by [int], whatever the character database. *)
Lemma py_int_Special n : py_int (u "Special") <> Ok n.
Proof. vm_compute. discriminate. Qed.

End Routes.


(** C9: when the season and the episode of an episode are non-empty and
    [int] does not accept the season, as for "Special", the episode page
    raises the [ValueError] of [int], and so does the episode card when
    the episode has a thumbnail; a scan produces such an episode, and then
    both its episode page and the page of its show raise. *)
Theorem season_letter_is_partial :
  (forall (U : Unicode) (ep : Episode.t),
     truthy (Episode.season ep) = true -> truthy (Episode.episode ep) = true ->
     (forall n, py_int (Episode.season ep) <> Ok n) ->
     (forall shows episode_hash,
        List.find (fun e => bool_decide (Episode.slug e = episode_hash))
                  (all_episodes shows) = Some ep ->
        episode_detail shows episode_hash = Raise ValueError)
     /\ (truthy_opt (Episode.thumbnail ep) = true ->
         episode_card ep = Raise ValueError))
  /\ (forall (U : Unicode) n, py_int (u "Special") <> Ok n)
  /\ scan VIDEO_EXTENSIONS special_library = Ok special_catalog
  /\ episode_detail special_catalog (Episode.slug special_episode) = Raise ValueError
  /\ show_detail special_catalog (show_key (u "Foo")) = Raise ValueError.
Proof.
  split; [|split; [|split; [|split]]].
  - intros U ep Hseason Hepisode Hno. split.
    + intros shows episode_hash Hfind.
      exact (episode_detail_raises shows episode_hash ep Hfind Hseason Hepisode Hno).
    + intros Hthumb. exact (episode_card_raises ep Hthumb Hseason Hepisode Hno).
  - intros U n. apply py_int_Special.
  - vm_compute. reflexivity.
  - vm_compute. reflexivity.
  - vm_compute. reflexivity.
Qed.

Lemma season_letter_is_partial_witness :
  episode_card special_episode = Raise ValueError
  /\ episode_detail special_catalog (Episode.slug special_episode) = Raise ValueError.
Proof.
  destruct season_letter_is_partial as (Hgeneral & Hspecial & _).
  destruct (Hgeneral unicode_blocks special_episode eq_refl eq_refl
              (Hspecial unicode_blocks)) as (Hdetail & Hcard).
  split.
  - exact (Hcard eq_refl).
  - refine (Hdetail special_catalog (Episode.slug special_episode) _).
    vm_compute. reflexivity.
Defined.

(** ** The order of the show page *)

Lemma str_lt_irrefl x : str_lt x x = false.
Proof.
  induction x as [|a x IH]; simpl; [reflexivity|].
  rewrite Z.ltb_irrefl, Z.eqb_refl, IH. reflexivity.
Qed.

Lemma str_lt_trans x : forall y z,
  str_lt x y = true -> str_lt y z = true -> str_lt x z = true.
Proof.
  induction x as [|a x IH]; intros [|b y] [|c z]; simpl; try congruence.
  intros Hxy Hyz.
  apply orb_true_iff in Hxy as [Hab|[Hab Hxy]%andb_true_iff];
    apply orb_true_iff in Hyz as [Hbc|[Hbc Hyz]%andb_true_iff];
    apply orb_true_iff.
  - left. apply Z.ltb_lt. apply Z.ltb_lt in Hab, Hbc. lia.
  - left. apply Z.ltb_lt. apply Z.ltb_lt in Hab. apply Z.eqb_eq in Hbc. lia.
  - left. apply Z.ltb_lt. apply Z.ltb_lt in Hbc. apply Z.eqb_eq in Hab. lia.
  - right. apply andb_true_iff. split.
    + apply Z.eqb_eq. apply Z.eqb_eq in Hab, Hbc. lia.
    + exact (IH y z Hxy Hyz).
Qed.

Lemma str_lt_total x : forall y,
  str_lt x y = true \/ x = y \/ str_lt y x = true.
Proof.
  induction x as [|a x IH]; intros [|b y]; simpl; auto.
  destruct (Z.lt_trichotomy a b) as [Hlt|[->|Hgt]].
  - left. apply orb_true_iff. left. apply Z.ltb_lt. exact Hlt.
  - rewrite Z.ltb_irrefl, Z.eqb_refl. simpl.
    destruct (IH y) as [H|[->|H]]; auto.
  - right. right. apply orb_true_iff. left. apply Z.ltb_lt. lia.
Qed.

Lemma key_lt_irrefl k : key_lt k k = false.
Proof.
  unfold key_lt. destruct (decide (k.1 = k.1)); [|congruence]. apply str_lt_irrefl.
Qed.

Lemma key_lt_trans k1 k2 k3 :
  key_lt k1 k2 = true -> key_lt k2 k3 = true -> key_lt k1 k3 = true.
Proof.
  destruct k1 as [s1 e1], k2 as [s2 e2], k3 as [s3 e3]. unfold key_lt. simpl.
  repeat case_decide; subst; intros H12 H23; try congruence;
    try (eapply str_lt_trans; eassumption).
  exfalso. pose proof (str_lt_trans _ _ _ H12 H23) as Hrefl.
  rewrite str_lt_irrefl in Hrefl. discriminate.
Qed.

Lemma key_lt_total k1 k2 :
  key_lt k1 k2 = true \/ k1 = k2 \/ key_lt k2 k1 = true.
Proof.
  destruct k1 as [s1 e1], k2 as [s2 e2]. unfold key_lt. simpl.
  repeat case_decide; subst; try congruence.
  - destruct (str_lt_total e1 e2) as [Hlt|[->|Hgt]]; auto.
  - destruct (str_lt_total s1 s2) as [Hlt|[->|Hgt]]; auto.
Qed.

(** [a <= b] and [b <= c] give [a <= c], [x <= y] being [not (y < x)]. *)
Lemma key_le_trans a b c :
  key_lt b a = false -> key_lt c b = false -> key_lt c a = false.
Proof.
  intros Hab Hbc. destruct (key_lt c a) eqn:Hca; [|reflexivity].
  destruct (key_lt_total a b) as [H|[->|H]]; [|congruence..].
  rewrite (key_lt_trans _ _ _ Hca H) in Hbc. discriminate.
Qed.

Section SortedFacts.
Context {A : Type} (key : A -> str * str).

Lemma insert_sorted_perm x l : insert_sorted key x l ≡ₚ x :: l.
Proof.
  induction l as [|y rest IH]; simpl; [reflexivity|].
  destruct (key_lt (key y) (key x)); [|reflexivity].
  rewrite IH. apply perm_swap.
Qed.

Lemma sorted_perm l : sorted key l ≡ₚ l.
Proof.
  induction l as [|x l IH]; simpl; [reflexivity|].
  unfold sorted in IH. rewrite insert_sorted_perm, IH. reflexivity.
Qed.

Lemma insert_sorted_in_order x l :
  StronglySorted (in_order key) l -> StronglySorted (in_order key) (insert_sorted key x l).
Proof.
  induction 1 as [|y rest Hsorted IH Hy]; simpl.
  - constructor; constructor.
  - destruct (key_lt (key y) (key x)) eqn:Hyx.
    + constructor; [exact IH|].
      rewrite insert_sorted_perm. constructor; [|exact Hy].
      unfold in_order. destruct (key_lt (key x) (key y)) eqn:Hxy; [|reflexivity].
      pose proof (key_lt_trans _ _ _ Hyx Hxy) as Hrefl.
      rewrite key_lt_irrefl in Hrefl. discriminate.
    + constructor; [constructor; assumption|].
      constructor; [exact Hyx|].
      eapply Forall_impl; [exact Hy|].
      intros z Hz. unfold in_order in *. exact (key_le_trans _ _ _ Hyx Hz).
Qed.

Lemma sorted_in_order l : StronglySorted (in_order key) (sorted key l).
Proof.
  induction l as [|x l IH]; simpl; [constructor|].
  apply insert_sorted_in_order. exact IH.
Qed.

Lemma in_order_after l1 x l2 :
  StronglySorted (in_order key) (l1 ++ x :: l2) -> Forall (in_order key x) l2.
Proof.
  induction l1 as [|y l1 IH]; simpl; intros Hsorted.
  - apply StronglySorted_inv in Hsorted as [_ H]. exact H.
  - apply StronglySorted_inv in Hsorted as [H _]. exact (IH H).
Qed.

(** Two items of the list, the first of smaller key, come in that order
    once sorted. *)
Lemma sorted_before l a b :
  In a l -> In b l -> key_lt (key a) (key b) = true ->
  exists l1 l2 l3, sorted key l = l1 ++ a :: l2 ++ b :: l3.
Proof.
  intros Ha Hb Hlt.
  pose proof (sorted_in_order l) as Hsorted.
  assert (In b (sorted key l)) as Hb'.
  { apply list_elem_of_In. rewrite sorted_perm. apply list_elem_of_In. exact Hb. }
  assert (In a (sorted key l)) as Ha'.
  { apply list_elem_of_In. rewrite sorted_perm. apply list_elem_of_In. exact Ha. }
  apply in_split in Hb' as (m1 & m2 & Hsplit).
  rewrite Hsplit in Ha', Hsorted.
  apply in_app_or in Ha' as [Hleft|[Heq|Hright]].
  - apply in_split in Hleft as (n1 & n2 & ->).
    exists n1, n2, m2. rewrite Hsplit, <- app_assoc. reflexivity.
  - subst. rewrite key_lt_irrefl in Hlt. discriminate.
  - exfalso. apply in_order_after in Hsorted.
    rewrite Forall_forall in Hsorted. specialize (Hsorted a).
    unfold in_order in Hsorted. rewrite Hsorted in Hlt; [discriminate|].
    apply list_elem_of_In. exact Hright.
Qed.
End SortedFacts.

Section ShowPage.
Context `{!Unicode}.

(** C7: the show page lays out the cards of the episodes in the order of a
    stable sort by the pair (season, episode), the two compared as
    strings, character by character: "10" is smaller than "2", so an
    episode numbered "10" comes before an episode numbered "2" of the same
    season. *)
Theorem show_detail_sorts_as_strings shows show_hash show :
  dict_get show_hash shows = Some show -> Show.episodes show <> [] ->
  let shown := sorted episode_key (Show.episodes show) in
  show_detail shows show_hash
  = (cards ← card_grid shown episode_card;
     Ok (TagResponse
           (document (Show.title show) (Some (u "/"))
              [ header (Some (u "/")) (title_parts "h1" "span" (Show.title show));
                El "div" [] [] cards ])))
  /\ shown ≡ₚ Show.episodes show
  /\ StronglySorted (in_order episode_key) shown
  /\ str_lt (u "10") (u "2") = true
  /\ forall a b,
       In a (Show.episodes show) -> In b (Show.episodes show) ->
       Episode.season a = Episode.season b ->
       Episode.episode a = u "10" -> Episode.episode b = u "2" ->
       exists l1 l2 l3, shown = l1 ++ a :: l2 ++ b :: l3.
Proof.
  intros Hget Hsome shown. split; [|split; [|split; [|split]]].
  - unfold show_detail. rewrite Hget.
    destruct (Show.episodes show) as [|e rest] eqn:Heps; [congruence|].
    fold shown. destruct (card_grid shown episode_card); reflexivity.
  - apply sorted_perm.
  - apply sorted_in_order.
  - reflexivity.
  - intros a b Ha Hb Hseason Hten Htwo.
    apply sorted_before; [exact Ha | exact Hb |].
    unfold key_lt, episode_key. simpl. rewrite Hseason, Hten, Htwo.
    destruct (decide (Episode.season b = Episode.season b)); [reflexivity|congruence].
Qed.
End ShowPage.

Lemma show_detail_sorts_as_strings_witness :
  sorted episode_key [episode_2; episode_10] = [episode_10; episode_2]
  /\ exists l1 l2 l3,
       sorted episode_key (Show.episodes numbered_show)
       = l1 ++ episode_10 :: l2 ++ episode_2 :: l3.
Proof.
  split; [reflexivity|].
  assert (dict_get (show_key (u "Foo")) numbered_catalog = Some numbered_show) as Hget
    by (vm_compute; reflexivity).
  assert (Show.episodes numbered_show <> []) as Hsome by discriminate.
  destruct (show_detail_sorts_as_strings numbered_catalog (show_key (u "Foo"))
              numbered_show Hget Hsome) as (_ & _ & _ & _ & Hbefore).
  refine (Hbefore episode_10 episode_2 _ _ eq_refl eq_refl eq_refl).
  - right. left. reflexivity.
  - left. reflexivity.
Defined.

(** ** The file matcher *)

Section Matcher.
Context `{!Unicode}.
Variable fs : FS.
Variable nfo : Path.

Lemma neighbours_cons ext rest path :
  with_suffix nfo ext = Ok path ->
  neighbours fs nfo (ext :: rest)
  = if exists_ fs path then (Ok (Some (path_str path)), [QExists path])
    else (let '(r, log) := neighbours fs nfo rest in (r, QExists path :: log)).
Proof.
  intros Hpath. simpl. rewrite Hpath.
  unfold lift, ask_exists, mbind, traced_bind, mret, traced_ret. simpl.
  destruct (exists_ fs path); simpl; [reflexivity|].
  destruct (neighbours fs nfo rest) as [r log]. reflexivity.
Qed.

(** The loop over the neighbours stops at the first one that exists, and
    asks nothing but whether neighbours exist. *)
Lemma neighbours_first exts :
  (forall x, In x exts -> exists q, with_suffix nfo x = Ok q) ->
  (exists x q, In x exts /\ with_suffix nfo x = Ok q /\ exists_ fs q = true) ->
  exists before ext after path log,
    exts = before ++ ext :: after
    /\ (forall x q, In x before -> with_suffix nfo x = Ok q -> exists_ fs q = false)
    /\ with_suffix nfo ext = Ok path /\ exists_ fs path = true
    /\ neighbours fs nfo exts = (Ok (Some (path_str path)), log)
    /\ (forall query, In query log -> exists q, query = QExists q).
Proof.
  induction exts as [|x rest IH]; intros Hfit (y & q & Hin & Hq & Hexists).
  - destruct Hin.
  - destruct (Hfit x (or_introl eq_refl)) as (qx & Hqx).
    destruct (exists_ fs qx) eqn:Hx.
    + exists [], x, rest, qx, [QExists qx]. repeat split; try assumption.
      * intros ? ? [].
      * rewrite (neighbours_cons _ _ _ Hqx), Hx. reflexivity.
      * intros query [<-|[]]. eauto.
    + destruct Hin as [->|Hin]; [congruence|].
      destruct IH as (before & ext & after & path & log & -> & Hnone & Hpath & Hp & Hrun & Hlog).
      { intros z Hz. apply Hfit. right. exact Hz. }
      { exists y, q. auto. }
      exists (x :: before), ext, after, path, (QExists qx :: log).
      repeat split; try assumption.
      * intros z qz [<-|Hz] Hqz; [congruence | eauto].
      * rewrite (neighbours_cons _ _ _ Hqx), Hx, Hrun. reflexivity.
      * intros query [<-|Hquery]; eauto.
Qed.

(** C6: when a neighbour of the descriptor with the same stem and an
    accepted extension exists, [_match_file] returns the first such
    neighbour in the iteration order of the extensions, which is the given
    neighbour when it is the only one that exists.  The call asks only
    whether neighbours exist: it walks the library neither for the same
    stem nor for the fuzzy match. *)
Theorem neighbour_match_wins meta exts ext path :
  (forall x, In x exts -> exists q, with_suffix nfo x = Ok q) ->
  In ext exts -> with_suffix nfo ext = Ok path -> exists_ fs path = true ->
  exists before ext' after path' log,
    exts = before ++ ext' :: after
    /\ (forall x q, In x before -> with_suffix nfo x = Ok q -> exists_ fs q = false)
    /\ with_suffix nfo ext' = Ok path' /\ exists_ fs path' = true
    /\ _match_file fs nfo meta exts = (Ok (Some (path_str path')), log)
    /\ (forall query, In query log -> exists q, query = QExists q)
    /\ ((forall x q, In x exts -> with_suffix nfo x = Ok q ->
                     exists_ fs q = true -> x = ext) ->
        path' = path).
Proof.
  intros Hfit Hin Hpath Hexists.
  destruct (neighbours_first exts Hfit) as
    (before & ext' & after & path' & log & Hsplit & Hnone & Hpath' & Hp' & Hrun & Hlog).
  { exists ext, path. auto. }
  exists before, ext', after, path', log.
  repeat split; try assumption.
  - unfold _match_file. rewrite Hrun.
    unfold mbind, traced_bind, mret, traced_ret. simpl.
    rewrite app_nil_r. reflexivity.
  - intros Honly.
    assert (ext' = ext) as ->.
    { apply (Honly ext' path'); [|assumption..].
      rewrite Hsplit. apply in_or_app. right. left. reflexivity. }
    congruence.
Qed.
End Matcher.

Lemma mkv_first_order : mkv_first ≡ₚ VIDEO_EXTENSIONS.
Proof.
  symmetry. apply permutations_Permutation. apply list_elem_of_In.
  vm_compute. tauto.
Qed.

(** The claim C6 as it is worded fails when a second neighbour exists and
    its extension is iterated first: with [ep.mkv] and [ep.mp4] both next
    to the descriptor, and [.mkv] before [.mp4] in the order of the set,
    the call returns [/lib/Show/ep.mkv]. *)
Lemma neighbour_of_claim_not_returned :
  mkv_first ≡ₚ VIDEO_EXTENSIONS
  /\ exists_ ep_two_neighbours ep_mp4 = true
  /\ with_suffix ep_nfo (u ".mp4") = Ok ep_mp4
  /\ (_match_file ep_two_neighbours ep_nfo ∅ mkv_first).1 = Ok (Some (u "/lib/Show/ep.mkv"))
  /\ (_match_file ep_two_neighbours ep_nfo ∅ mkv_first).1 <> Ok (Some (path_str ep_mp4)).
Proof.
  split; [exact mkv_first_order|].
  split; [vm_compute; reflexivity|].
  split; [vm_compute; reflexivity|].
  split; [vm_compute; reflexivity|].
  vm_compute. discriminate.
Qed.

Lemma neighbour_match_wins_witness :
  exists before ext' after path' log,
    mkv_first = before ++ ext' :: after
    /\ (forall x q, In x before -> with_suffix ep_nfo x = Ok q ->
                    exists_ ep_one_neighbour q = false)
    /\ with_suffix ep_nfo ext' = Ok path' /\ exists_ ep_one_neighbour path' = true
    /\ _match_file ep_one_neighbour ep_nfo ∅ mkv_first
       = (Ok (Some (path_str path')), log)
    /\ (forall query, In query log -> exists q, query = QExists q)
    /\ ((forall x q, In x mkv_first -> with_suffix ep_nfo x = Ok q ->
                     exists_ ep_one_neighbour q = true -> x = u ".mp4") ->
        path' = ep_mp4).
Proof.
  apply (neighbour_match_wins ep_one_neighbour ep_nfo ∅ mkv_first (u ".mp4") ep_mp4).
  - intros x Hx. vm_compute in Hx.
    destruct Hx as [<-|[<-|[<-|[<-|[]]]]]; eexists; vm_compute; reflexivity.
  - right. left. reflexivity.
  - vm_compute. reflexivity.
  - vm_compute. reflexivity.
Defined.

(** ** The fuzzy match of the episode "Pilot" *)

Lemma find_first {A} (f : A -> bool) before x after :
  (forall y, In y before -> f y = false) -> f x = true ->
  List.find f (before ++ x :: after) = Some x.
Proof.
  intros Hnone Hx. induction before as [|y before IH]; simpl.
  - rewrite Hx. reflexivity.
  - rewrite (Hnone y (or_introl eq_refl)). apply IH.
    intros z Hz. apply Hnone. right. exact Hz.
Qed.






(** ** The text normalizer *)

Section Normalizer.
Context `{!Unicode}.

(** What [normalize] removes: its result holds no comma, no question
    mark, no exclamation mark and no space. *)
Lemma normalize_removes x c :
  In c (normalize x) -> c <> 44%Z /\ c <> 63%Z /\ c <> 33%Z /\ c <> 32%Z.
Proof.
  unfold normalize, translate_delete. intros Hin.
  apply list_elem_of_In, list_elem_of_filter in Hin as [Hkeep Hin].
  assert (c <> 32%Z) as Hspace.
  { apply list_elem_of_In, in_map_iff in Hin as (d & <- & _).
    destruct (d =? 32)%Z eqn:Hd; [discriminate|]. apply Z.eqb_neq. exact Hd. }
  repeat split; try exact Hspace; intros ->; apply Hkeep;
    apply list_elem_of_In; vm_compute; tauto.
Qed.
End Normalizer.

(** The claim C3 as it is worded fails: the full stop of "Mr. Robot" is
    kept, and the space after it becomes a second full stop. *)
Lemma normalize_Mr_Robot_differs :
  normalize (u "Mr. Robot") <> normalize (u "mr robot").
Proof. vm_compute. discriminate. Qed.

(** C3: "Mr. Robot" normalizes to [mr..robot] and "mr robot" to
    [mr.robot]; the full stop is not removed.  What is removed is the
    comma, the question mark and the exclamation mark (and every space
    becomes a full stop): "Mr Robot" and "Mr, Robot?!" normalize as
    "mr robot" does. *)
Theorem normalize_removes_three_marks_only :
  normalize (u "Mr. Robot") = u "mr..robot"
  /\ normalize (u "mr robot") = u "mr.robot"
  /\ normalize (u "Mr Robot") = normalize (u "mr robot")
  /\ normalize (u "Mr, Robot?!") = normalize (u "mr robot")
  /\ normalize (u "a.b;c:d'e-f(g)") = u "a.b;c:d'e-f(g)"
  /\ forall (U : Unicode) x c,
       In c (normalize x) -> c <> 44%Z /\ c <> 63%Z /\ c <> 33%Z /\ c <> 32%Z.
Proof.
  repeat split; try (vm_compute; reflexivity);
    eapply normalize_removes; eassumption.
Qed.

(** ** Idempotence of the normalizer *)

Section Idempotence.
Context `{!Unicode}.

(** Canonical ordering permutes; on starters it changes nothing. *)
Lemma reorder_insert_perm c acc : reorder_insert c acc ≡ₚ c :: acc.
Proof.
  induction acc as [|p rest IH]; simpl; [reflexivity|].
  destruct ((0 <? combining c)%Z && (combining c <? combining p)%Z); [|reflexivity].
  rewrite IH. apply perm_swap.
Qed.

Lemma reorder_fold_perm s : forall acc,
  fold_left (fun acc c => reorder_insert c acc) s acc ≡ₚ s ++ acc.
Proof.
  induction s as [|c s IH]; intros acc; simpl; [reflexivity|].
  rewrite IH, reorder_insert_perm. symmetry. apply Permutation_middle.
Qed.

Lemma canonical_order_perm s : canonical_order s ≡ₚ s.
Proof.
  unfold canonical_order. rewrite <- Permutation_rev, reorder_fold_perm.
  rewrite app_nil_r. reflexivity.
Qed.

Lemma reorder_insert_starter c acc :
  combining c = 0%Z -> reorder_insert c acc = c :: acc.
Proof.
  intros Hc. destruct acc as [|p rest]; simpl; [reflexivity|].
  rewrite Hc. reflexivity.
Qed.

Lemma reorder_fold_starters s : forall acc,
  Forall (fun c => combining c = 0%Z) s ->
  fold_left (fun acc c => reorder_insert c acc) s acc = rev s ++ acc.
Proof.
  induction s as [|c s IH]; intros acc Hs; simpl; [reflexivity|].
  apply Forall_cons in Hs as [Hc Hs].
  rewrite (reorder_insert_starter c acc Hc), (IH _ Hs), <- app_assoc.
  reflexivity.
Qed.

Lemma canonical_order_starters s :
  Forall (fun c => combining c = 0%Z) s -> canonical_order s = s.
Proof.
  intros Hs. unfold canonical_order.
  rewrite (reorder_fold_starters s [] Hs), app_nil_r. apply rev_involutive.
Qed.

Lemma flat_map_own_decomposition s :
  Forall (fun c => canonical c = [c]) s -> flat_map canonical s = s.
Proof.
  induction 1 as [|c s Hc _ IH]; simpl; [reflexivity|].
  rewrite Hc, IH. reflexivity.
Qed.

Lemma nfd_settled s : Forall settled s -> nfd s = s.
Proof.
  intros Hs. unfold nfd.
  rewrite flat_map_own_decomposition.
  - apply canonical_order_starters.
    eapply Forall_impl; [exact Hs|]. intros c (_ & _ & Hc). exact Hc.
  - eapply Forall_impl; [exact Hs|]. intros c (Hc & _). exact Hc.
Qed.

Lemma filter_marks_settled s :
  Forall settled s -> List.filter (fun c => negb (category_Mn c)) s = s.
Proof.
  induction 1 as [|c s (_ & Hc & _) _ IH]; simpl; [reflexivity|].
  rewrite Hc, IH. reflexivity.
Qed.

Lemma lower_from_low s : forall before_rev,
  Forall low s -> lower_from before_rev s = s.
Proof.
  induction s as [|c s IH]; intros before_rev Hs; simpl; [reflexivity|].
  apply Forall_cons in Hs as [(_ & Hlower & Hsigma) Hs].
  apply Z.eqb_neq in Hsigma. rewrite Hsigma, Hlower, (IH _ Hs). reflexivity.
Qed.

Lemma replace_char_absent old new s :
  ~ In old s -> replace_char old new s = s.
Proof.
  induction s as [|c s IH]; simpl; intros Hnot; [reflexivity|].
  destruct (c =? old)%Z eqn:Hc.
  - apply Z.eqb_eq in Hc. exfalso. apply Hnot. left. exact Hc.
  - rewrite IH; [reflexivity|]. intros Hin. apply Hnot. right. exact Hin.
Qed.

Lemma translate_delete_absent drop s :
  (forall c, In c s -> ~ In c drop) -> translate_delete drop s = s.
Proof.
  unfold translate_delete, str.
  induction s as [|c s IH]; intros Hnot; [reflexivity|].
  rewrite filter_cons_True.
  - rewrite IH; [reflexivity|]. intros d Hd. apply Hnot. right. exact Hd.
  - intros Hin%list_elem_of_In. exact (Hnot c (or_introl eq_refl) Hin).
Qed.

(** A string of low characters with none of the characters that
    [normalize] removes is its own normal form. *)
Lemma normalize_low y :
  Forall low y ->
  (forall c, In c y -> c <> 44%Z /\ c <> 63%Z /\ c <> 33%Z /\ c <> 32%Z) ->
  normalize y = y.
Proof.
  intros Hlow Hkept. unfold normalize.
  assert (Forall settled y) as Hsettled.
  { eapply Forall_impl; [exact Hlow|]. intros c (Hc & _). exact Hc. }
  rewrite (nfd_settled y Hsettled), (filter_marks_settled y Hsettled).
  unfold lower. rewrite (lower_from_low y [] Hlow).
  rewrite replace_char_absent.
  - apply translate_delete_absent. intros c Hc Hdrop.
    destruct (Hkept c Hc) as (Hcomma & Hquestion & Hbang & _).
    vm_compute in Hdrop. intuition congruence.
  - intros Hspace. destruct (Hkept 32%Z Hspace) as (_ & _ & _ & Hne). congruence.
Qed.

Context `{!UnicodeLaws}.

Lemma capital_sigma_low before_rev after : low (capital_sigma before_rev after).
Proof.
  unfold capital_sigma. destruct sigma_low as [Hfinal Hsmall].
  destruct (_ && _); assumption.
Qed.

Lemma lower_from_settled s : forall before_rev,
  Forall settled s -> Forall low (lower_from before_rev s).
Proof.
  induction s as [|c s IH]; intros before_rev Hs; simpl; [constructor|].
  apply Forall_cons in Hs as [Hc Hs].
  apply Forall_app. split; [|exact (IH _ Hs)].
  destruct (c =? 0x3a3)%Z.
  - constructor; [apply capital_sigma_low | constructor].
  - apply Forall_forall. intros d Hd%list_elem_of_In. exact (lower_low c d Hc Hd).
Qed.

(** The characters of [nfd x] that are not marks are settled, when they
    are starters. *)
Lemma nfd_filter_settled x :
  Forall (fun c => category_Mn c = false -> combining c = 0%Z) (nfd x) ->
  Forall settled (List.filter (fun c => negb (category_Mn c)) (nfd x)).
Proof.
  intros Hstarters. apply Forall_forall. intros c Hc%list_elem_of_In.
  apply filter_In in Hc as [Hin Hmark]. apply negb_true_iff in Hmark.
  rewrite Forall_forall in Hstarters.
  repeat split; [|exact Hmark|].
  - unfold nfd in Hin. apply list_elem_of_In in Hin.
    rewrite canonical_order_perm in Hin.
    apply list_elem_of_In, in_flat_map in Hin as (c0 & _ & Hdec).
    exact (canonical_full c0 c Hdec).
  - apply Hstarters; [apply list_elem_of_In; exact Hin | exact Hmark].
Qed.

Lemma normalize_is_low x :
  Forall (fun c => category_Mn c = false -> combining c = 0%Z) (nfd x) ->
  Forall low (normalize x).
Proof.
  intros Hstarters. unfold normalize, translate_delete.
  apply Forall_forall. intros c [_ Hc]%list_elem_of_filter.
  apply list_elem_of_In, in_map_iff in Hc as (d & <- & Hd).
  destruct (d =? 32)%Z; [apply full_stop_low|].
  pose proof (lower_from_settled _ [] (nfd_filter_settled x Hstarters)) as Hlow.
  rewrite Forall_forall in Hlow. apply Hlow, list_elem_of_In. exact Hd.
Qed.

(** C5: [normalize] is idempotent on every string whose canonical
    decomposition holds, apart from nonspacing marks, starters only
    (characters of combining class 0). *)
Theorem normalize_idempotent_on_starters x :
  Forall (fun c => category_Mn c = false -> combining c = 0%Z) (nfd x) ->
  normalize (normalize x) = normalize x.
Proof.
  intros Hstarters. apply normalize_low.
  - exact (normalize_is_low x Hstarters).
  - intros c Hc. exact (normalize_removes x c Hc).
Qed.
End Idempotence.

(** The claim C5 as it is worded fails: U+1D16D and U+1D165 are spacing
    marks of combining classes 226 and 216; the comma between them keeps
    them in this order in the first pass and is removed, and the second
    pass puts them in canonical order. *)
Lemma normalize_twice_differs :
  normalize [0x1d16d; 44; 0x1d165]%Z = [0x1d16d; 0x1d165]%Z
  /\ normalize (normalize [0x1d16d; 44; 0x1d165]%Z) = [0x1d165; 0x1d16d]%Z
  /\ normalize (normalize [0x1d16d; 44; 0x1d165]%Z) <> normalize [0x1d16d; 44; 0x1d165]%Z.
Proof.
  split; [vm_compute; reflexivity|]. split; [vm_compute; reflexivity|].
  vm_compute. discriminate.
Qed.

(** ** The laws hold on the blocks of [unicode_blocks] *)

Lemma assoc_In {V} c (table : list (Z * V)) v :
  assoc c table = Some v -> In (c, v) table.
Proof.
  induction table as [|[k w] rest IH]; simpl; [discriminate|].
  destruct (k =? c)%Z eqn:Hk.
  - apply Z.eqb_eq in Hk as ->. intros [= ->]. left. reflexivity.
  - intros Hrest. right. exact (IH Hrest).
Qed.

Lemma canonical_table_full :
  Forall (fun cl => Forall (fun d => assoc d canonical_table = None) cl.2)
         canonical_table.
Proof. refine (bool_decide_unpack _ _). vm_compute. exact I. Qed.

Lemma lower_table_low :
  Forall (fun cl => settled cl.1 -> Forall low cl.2) lower_table.
Proof. refine (bool_decide_unpack _ _). vm_compute. exact I. Qed.

Lemma unicode_blocks_laws : UnicodeLaws.
Proof.
  split.
  - intros c d. cbn [canonical unicode_blocks].
    destruct (assoc c canonical_table) as [l|] eqn:Hc; cbn [default].
    + intros Hd. apply assoc_In in Hc.
      pose proof canonical_table_full as Hfull.
      rewrite Forall_forall in Hfull. specialize (Hfull (c, l)).
      rewrite Forall_forall in Hfull.
      rewrite Hfull; [reflexivity | apply list_elem_of_In; exact Hc
                     | apply list_elem_of_In; exact Hd].
    + intros [<-|[]]. rewrite Hc. reflexivity.
  - intros c d Hsettled. cbn [lower_full unicode_blocks].
    destruct (assoc c lower_table) as [l|] eqn:Hc; cbn [default].
    + intros Hd. apply assoc_In in Hc.
      pose proof lower_table_low as Hlow.
      rewrite Forall_forall in Hlow. specialize (Hlow (c, l)).
      cbn [fst snd] in Hlow. rewrite Forall_forall in Hlow.
      apply Hlow; [apply list_elem_of_In; exact Hc | exact Hsettled
                  | apply list_elem_of_In; exact Hd].
    + intros [<-|[]]. split; [exact Hsettled|]. split.
      * cbn [lower_full unicode_blocks]. rewrite Hc. reflexivity.
      * intros ->. vm_compute in Hc. discriminate.
  - split; refine (bool_decide_unpack _ _); vm_compute; exact I.
  - refine (bool_decide_unpack _ _). vm_compute. exact I.
Qed.

#[global] Existing Instance unicode_blocks_laws.

Lemma normalize_idempotent_on_starters_witness :
  Forall (fun c => category_Mn c = false -> combining c = 0%Z) (nfd creme_brulee)
  /\ normalize creme_brulee = u "creme.brulee.s'il.vous.plait"
  /\ normalize (normalize creme_brulee) = normalize creme_brulee.
Proof.
  assert (Forall (fun c => category_Mn c = false -> combining c = 0%Z)
                 (nfd creme_brulee)) as Hstarters
    by (refine (bool_decide_unpack _ _); vm_compute; exact I).
  split; [exact Hstarters|]. split; [vm_compute; reflexivity|].
  exact (normalize_idempotent_on_starters creme_brulee Hstarters).
Defined.

Lemma normalize_removes_three_marks_only_witness :
  In 46%Z (normalize (u "Mr. Robot"))
  /\ (46 <> 44 /\ 46 <> 63 /\ 46 <> 33 /\ 46 <> 32)%Z.
Proof.
  destruct normalize_removes_three_marks_only as (_ & _ & _ & _ & _ & Hremoved).
  assert (In 46%Z (normalize (u "Mr. Robot"))) as Hin by (vm_compute; tauto).
  split; [exact Hin|].
  exact (Hremoved unicode_blocks (u "Mr. Robot") 46%Z Hin).
Defined.

(** * Further properties *)

Arguments show_key : simpl never.
Arguments md5_hex8 : simpl never.
Arguments normalize : simpl never.

Lemma bind_Ok_eq {A B} (a : A) (k : A -> result B) : (Ok a ≫= k) = k a.
Proof. reflexivity. Qed.


(** ** The two schemas of the parser *)

Lemma parse_nfo_file_shape (fs : FS) (nfo : Path) (root : Element) :
  et_parse fs nfo = Ok root ->
  (tag root = u "tvshow" ->
   exists meta,
     parse_nfo_file fs nfo = Ok meta
     /\ meta !! "type" = Some (u "show")
     /\ getitem meta "title" = Ok (or_empty (_get root (u "title")))
     /\ getitem meta "plot" = Ok (or_empty (_get root (u "plot")))
     /\ getitem meta "thumb" = Ok (or_empty (_get root (u "thumb")))
     /\ dom meta = ({["type"; "title"; "plot"; "thumb"]} : gset string))
  /\ (tag root = u "episodedetails" ->
      exists meta,
        parse_nfo_file fs nfo = Ok meta
        /\ meta !! "type" = Some (u "episode")
        /\ getitem meta "showtitle" = Ok (or_empty (_get root (u "showtitle")))
        /\ getitem meta "title" = Ok (or_empty (_get root (u "title")))
        /\ getitem meta "season" = Ok (or_empty (_get root (u "season")))
        /\ getitem meta "episode" = Ok (or_empty (_get root (u "episode")))
        /\ getitem meta "plot" = Ok (or_empty (_get root (u "plot")))
        /\ meta !! "aired" = Some (or_empty (_get root (u "aired")))
        /\ dom meta = ({["type"; "showtitle"; "title"; "season"; "episode";
                         "plot"; "aired"]} : gset string)).
Proof.
  intros Hparse. unfold parse_nfo_file. rewrite Hparse. split.
  - intros Htag. destruct (decide (tag root = u "tvshow")); [|contradiction].
    eexists. split; [reflexivity|]. unfold getitem.
    repeat split;
      first [ by simplify_map_eq
            | rewrite !dom_insert_L, dom_empty_L; set_solver ].
  - intros Htag.
    destruct (decide (tag root = u "tvshow")) as [Hshow|_].
    { rewrite Htag in Hshow. vm_compute in Hshow. discriminate. }
    destruct (decide (tag root = u "episodedetails")); [|contradiction].
    eexists. split; [reflexivity|]. unfold getitem.
    repeat split;
      first [ by simplify_map_eq
            | rewrite !dom_insert_L, dom_empty_L; set_solver ].
Qed.

(** X1: a descriptor whose root is [tvshow] parses to a mapping of type
    "show" with exactly the keys type, title, plot and thumb; one whose
    root is [episodedetails] to a mapping of type "episode" with exactly
    the keys type, showtitle, title, season, episode, plot and aired.
    Each value is the text of the first child of that name, and the empty
    string when there is no such child or it has no text: no key is ever
    absent. *)
Theorem parse_nfo_file_schema (fs : FS) (nfo : Path) (root : Element) :
  et_parse fs nfo = Ok root ->
  (tag root = u "tvshow" ->
   exists meta,
     parse_nfo_file fs nfo = Ok meta
     /\ meta !! "type" = Some (u "show")
     /\ getitem meta "title" = Ok (or_empty (_get root (u "title")))
     /\ getitem meta "plot" = Ok (or_empty (_get root (u "plot")))
     /\ getitem meta "thumb" = Ok (or_empty (_get root (u "thumb")))
     /\ dom meta = ({["type"; "title"; "plot"; "thumb"]} : gset string))
  /\ (tag root = u "episodedetails" ->
      exists meta,
        parse_nfo_file fs nfo = Ok meta
        /\ meta !! "type" = Some (u "episode")
        /\ getitem meta "showtitle" = Ok (or_empty (_get root (u "showtitle")))
        /\ getitem meta "title" = Ok (or_empty (_get root (u "title")))
        /\ getitem meta "season" = Ok (or_empty (_get root (u "season")))
        /\ getitem meta "episode" = Ok (or_empty (_get root (u "episode")))
        /\ getitem meta "plot" = Ok (or_empty (_get root (u "plot")))
        /\ meta !! "aired" = Some (or_empty (_get root (u "aired")))
        /\ dom meta = ({["type"; "showtitle"; "title"; "season"; "episode";
                         "plot"; "aired"]} : gset string)).
Proof. exact (parse_nfo_file_shape fs nfo root). Qed.

Lemma parse_nfo_file_schema_witness :
  exists meta,
    parse_nfo_file foo_show_first foo_show_nfo = Ok meta
    /\ meta !! "type" = Some (u "show")
    /\ getitem meta "title" = Ok (or_empty (_get foo_tvshow (u "title")))
    /\ getitem meta "plot" = Ok (or_empty (_get foo_tvshow (u "plot")))
    /\ getitem meta "thumb" = Ok (or_empty (_get foo_tvshow (u "thumb")))
    /\ dom meta = ({["type"; "title"; "plot"; "thumb"]} : gset string).
Proof.
  refine (proj1 (parse_nfo_file_schema foo_show_first foo_show_nfo foo_tvshow _) _).
  - vm_compute. reflexivity.
  - reflexivity.
Defined.

(** ** What [_match_file] returns *)

Lemma traced_bind_Ok {A B} (a : A) (log : list fs_query) (k : A -> traced B) :
  ((Ok a, log) ≫= k) = ((k a).1, log ++ (k a).2).
Proof.
  unfold mbind, traced_bind. destruct (k a) as [r log']. reflexivity.
Qed.

Lemma traced_bind_Raise {A B} (e : exn) (log : list fs_query) (k : A -> traced B) :
  ((Raise e, log) ≫= k) = (Raise e, log).
Proof. reflexivity. Qed.

Lemma walks_app log1 log2 : walks (log1 ++ log2) = walks log1 ++ walks log2.
Proof. unfold walks. apply flat_map_app. Qed.

Lemma with_suffix_raises p sfx e : with_suffix p sfx = Raise e -> e = ValueError.
Proof. unfold with_suffix. repeat case_decide; congruence. Qed.

Section MatcherResults.
Context `{!Unicode}.
Variable fs : FS.
Variable nfo : Path.

Lemma neighbours_cons_raise ext rest e :
  with_suffix nfo ext = Raise e -> neighbours fs nfo (ext :: rest) = (Raise e, []).
Proof. intros Hp. cbn [neighbours]. rewrite Hp. reflexivity. Qed.

(** The outcome of the loop over the neighbours. *)
Lemma neighbours_result exts :
  (neighbours fs nfo exts).1 = Raise ValueError
  /\ (exists ext, In ext exts /\ with_suffix nfo ext = Raise ValueError)
  /\ walks (neighbours fs nfo exts).2 = []
  \/ (exists ext p, In ext exts /\ with_suffix nfo ext = Ok p /\ exists_ fs p = true
                    /\ (neighbours fs nfo exts).1 = Ok (Some (path_str p)))
     /\ walks (neighbours fs nfo exts).2 = []
  \/ (neighbours fs nfo exts).1 = Ok None
     /\ (forall ext, In ext exts ->
           exists p, with_suffix nfo ext = Ok p /\ exists_ fs p = false)
     /\ walks (neighbours fs nfo exts).2 = [].
Proof.
  induction exts as [|ext rest IH].
  - right. right. repeat split. intros ext [].
  - destruct (with_suffix nfo ext) as [p|e] eqn:Hp.
    + rewrite (neighbours_cons fs nfo ext rest p Hp).
      destruct (exists_ fs p) eqn:Hexists.
      * right. left. split; [|reflexivity].
        exists ext, p. repeat split; [left; reflexivity | assumption..].
      * destruct (neighbours fs nfo rest) as [r log]. cbn [fst snd] in *.
        change (walks (QExists p :: log)) with (walks log).
        destruct IH as [(Hr & (x & Hx & Hbad) & Hw)
                       |[((x & q & Hx & Hq & Hqe & Hr) & Hw)|(Hr & Hnone & Hw)]].
        -- left. repeat split; [exact Hr | exists x; split; [right|]; assumption
                               | exact Hw].
        -- right. left. split; [|exact Hw].
           exists x, q. repeat split; [right| | |]; assumption.
        -- right. right. repeat split; [exact Hr | | exact Hw].
           intros x [<-|Hx]; [exists p; split; assumption | exact (Hnone x Hx)].
    + pose proof (with_suffix_raises _ _ _ Hp) as ->.
      rewrite (neighbours_cons_raise ext rest _ Hp).
      left. repeat split. exists ext. split; [left; reflexivity | exact Hp].
Qed.

Lemma first_existing_cons p rest :
  first_existing fs (p :: rest)
  = if exists_ fs p then (Ok (Some (path_str p)), [QExists p])
    else (let '(r, log) := first_existing fs rest in (r, QExists p :: log)).
Proof.
  cbn [first_existing]. unfold ask_exists, mbind, traced_bind, mret, traced_ret.
  destruct (exists_ fs p); [reflexivity|].
  destruct (first_existing fs rest) as [r log]. reflexivity.
Qed.

Lemma first_existing_result paths :
  walks (first_existing fs paths).2 = []
  /\ ((exists p, In p paths /\ exists_ fs p = true
                 /\ (first_existing fs paths).1 = Ok (Some (path_str p)))
      \/ (first_existing fs paths).1 = Ok None
         /\ forall p, In p paths -> exists_ fs p = false).
Proof.
  induction paths as [|p rest [Hw IH]].
  - split; [reflexivity|]. right. split; [reflexivity | intros p []].
  - rewrite first_existing_cons.
    destruct (exists_ fs p) eqn:Hexists.
    + split; [reflexivity|]. left. exists p.
      repeat split; [left; reflexivity | exact Hexists].
    + destruct (first_existing fs rest) as [r log]. cbn [fst snd] in *.
      change (walks (QExists p :: log)) with (walks log).
      split; [exact Hw|].
      destruct IH as [(q & Hq & Hqe & Hr)|(Hr & Hnone)].
      * left. exists q. repeat split; [right| |]; assumption.
      * right. split; [exact Hr|]. intros q [<-|Hq]; [exact Hexists | exact (Hnone q Hq)].
Qed.

Lemma same_stem_result exts :
  walks (same_stem fs nfo exts).2 = [stem nfo ++ u "*"]
  /\ ((exists p, In p (rglob fs (stem nfo ++ u "*")) /\ accepted exts p = true
                 /\ exists_ fs p = true
                 /\ (same_stem fs nfo exts).1 = Ok (Some (path_str p)))
      \/ (same_stem fs nfo exts).1 = Ok None
         /\ forall p, In p (rglob fs (stem nfo ++ u "*")) ->
                      accepted exts p = true -> exists_ fs p = false).
Proof.
  unfold same_stem, ask_rglob. rewrite traced_bind_Ok.
  destruct (first_existing_result
              (List.filter (accepted exts) (rglob fs (stem nfo ++ u "*"))))
    as [Hw Hcases].
  cbn [fst snd]. rewrite walks_app, Hw. split; [reflexivity|].
  destruct Hcases as [(p & Hp & Hexists & Hr)|(Hr & Hnone)].
  - apply filter_In in Hp as [Hin Hacc]. left. exists p. auto.
  - right. split; [exact Hr|]. intros p Hin Hacc. apply Hnone.
    apply filter_In. auto.
Qed.

(** The outcome of the fuzzy strategy: a [KeyError] before any walk when
    one of the four keys is absent, else the first hit of one walk. *)
Lemma fuzzy_result meta exts :
  (exists key, (fuzzy fs meta exts) = (Raise (KeyError key), [])
               /\ meta !! key = None)
  \/ exists showtitle title season ep,
       getitem meta "showtitle" = Ok showtitle /\ getitem meta "title" = Ok title
       /\ getitem meta "season" = Ok season /\ getitem meta "episode" = Ok ep
       /\ fuzzy fs meta exts
          = (Ok (path_str <$>
                   List.find (fuzzy_hit exts (normalize showtitle) (normalize title)
                                [ u "s" ++ season ++ u "e" ++ ep;
                                  u "s" ++ zfill 2 season ++ u "e" ++ zfill 2 ep ])
                             (rglob fs (u "*"))),
             [QRglob (u "*")]).
Proof.
  unfold fuzzy, getitem.
  destruct (meta !! "showtitle") as [showtitle|] eqn:H1;
    [|left; exists "showtitle"; split; [reflexivity | exact H1]].
  destruct (meta !! "title") as [title|] eqn:H2;
    [|left; exists "title"; split; [reflexivity | exact H2]].
  destruct (meta !! "season") as [season|] eqn:H3;
    [|left; exists "season"; split; [reflexivity | exact H3]].
  destruct (meta !! "episode") as [ep|] eqn:H4;
    [|left; exists "episode"; split; [reflexivity | exact H4]].
  right. exists showtitle, title, season, ep. repeat split.
Qed.
End MatcherResults.

Section MatchFile.
Context `{!Unicode}.
Variable fs : FS.
Variable nfo : Path.
Variable meta : gmap string str.
Variable exts : list str.

(** The three strategies, one after the other. *)
Lemma match_file_unfold :
  _match_file fs nfo meta exts
  = match neighbours fs nfo exts with
    | (Raise e, log1) => (Raise e, log1)
    | (Ok (Some path), log1) => (Ok (Some path), log1)
    | (Ok None, log1) =>
        match same_stem fs nfo exts with
        | (Raise e, log2) => (Raise e, log1 ++ log2)
        | (Ok (Some path), log2) => (Ok (Some path), log1 ++ log2)
        | (Ok None, log2) =>
            if decide (meta !! "type" = Some (u "episode"))
            then ((fuzzy fs meta exts).1, log1 ++ log2 ++ (fuzzy fs meta exts).2)
            else (Ok None, log1 ++ log2)
        end
    end.
Proof.
  unfold _match_file, mbind, traced_bind, mret, traced_ret.
  destruct (neighbours fs nfo exts) as [[[path|]|e] log1];
    rewrite ?app_nil_r; try reflexivity.
  destruct (same_stem fs nfo exts) as [[[path|]|e] log2];
    rewrite ?app_nil_r; try reflexivity.
  destruct (decide (meta !! "type" = Some (u "episode"))); [|rewrite app_nil_r; reflexivity].
  destruct (fuzzy fs meta exts) as [r3 log3]. reflexivity.
Qed.

(** X2: a path that [_match_file] returns is the path of a neighbour of
    the descriptor that exists, or of a path of the walk for its stem that
    has an accepted extension and exists, or, for an episode, of a path of
    the walk of the whole library that has an accepted extension and whose
    normalized stem holds the normalized show title. *)
Theorem match_file_sound (found : str) :
  (_match_file fs nfo meta exts).1 = Ok (Some found) ->
  (exists ext p, In ext exts /\ with_suffix nfo ext = Ok p /\ exists_ fs p = true
                 /\ found = path_str p)
  \/ (exists p, In p (rglob fs (stem nfo ++ u "*")) /\ accepted exts p = true
                /\ exists_ fs p = true /\ found = path_str p)
  \/ (meta !! "type" = Some (u "episode")
      /\ exists showtitle p,
           meta !! "showtitle" = Some showtitle /\ In p (rglob fs (u "*"))
           /\ accepted exts p = true
           /\ str_in (normalize showtitle) (normalize (stem p)) = true
           /\ found = path_str p).
Proof.
  rewrite match_file_unfold.
  destruct (neighbours_result fs nfo exts) as
    [(Hr & _)|[((ext & p & Hext & Hp & Hexists & Hr) & _)|(Hr & _)]];
    destruct (neighbours fs nfo exts) as [r1 log1]; cbn [fst] in Hr; subst r1.
  - discriminate.
  - intros [= <-]. left. exists ext, p. auto.
  - destruct (same_stem_result fs nfo exts) as
      [_ [(p & Hin & Hacc & Hexists & Hr)|(Hr & _)]];
      destruct (same_stem fs nfo exts) as [r2 log2]; cbn [fst] in Hr; subst r2.
    + intros [= <-]. right. left. exists p. auto.
    + destruct (decide (meta !! "type" = Some (u "episode"))) as [Htype|_];
        [|discriminate].
      cbn [fst]. intros Hfuzzy. right. right. split; [exact Htype|].
      destruct (fuzzy_result fs meta exts) as
        [(key & Hraise & _)|(showtitle & title & season & ep & Hs & _ & _ & _ & Hrun)].
      { rewrite Hraise in Hfuzzy. discriminate. }
      rewrite Hrun in Hfuzzy. cbn [fst] in Hfuzzy. injection Hfuzzy as Hfind.
      destruct (List.find _ (rglob fs (u "*"))) as [p|] eqn:Hhit; [|discriminate].
      injection Hfind as <-. apply find_some in Hhit as [Hin Hhit].
      unfold fuzzy_hit in Hhit.
      apply andb_true_iff in Hhit as [Hacc Hhit].
      apply andb_true_iff in Hhit as [Hshow _].
      exists showtitle, p. repeat split; try assumption.
      apply getitem_Ok. exact Hs.
Qed.

(** X3: when [_match_file] returns [None], no neighbour of the
    descriptor with one of the extensions exists, no path of the walk for
    its stem with an accepted extension exists and, for an episode, no
    path of the walk of the library is a fuzzy hit. *)
Theorem match_file_none :
  (_match_file fs nfo meta exts).1 = Ok None ->
  (forall ext, In ext exts ->
     exists p, with_suffix nfo ext = Ok p /\ exists_ fs p = false)
  /\ (forall p, In p (rglob fs (stem nfo ++ u "*")) ->
                accepted exts p = true -> exists_ fs p = false)
  /\ (meta !! "type" = Some (u "episode") ->
      exists showtitle title season ep,
        meta !! "showtitle" = Some showtitle /\ meta !! "title" = Some title
        /\ meta !! "season" = Some season /\ meta !! "episode" = Some ep
        /\ forall p, In p (rglob fs (u "*")) ->
             fuzzy_hit exts (normalize showtitle) (normalize title)
               [ u "s" ++ season ++ u "e" ++ ep;
                 u "s" ++ zfill 2 season ++ u "e" ++ zfill 2 ep ] p = false).
Proof.
  rewrite match_file_unfold.
  destruct (neighbours_result fs nfo exts) as
    [(Hr & _)|[((ext & p & Hext & Hp & Hexists & Hr) & _)|(Hr & Hnone1 & _)]];
    destruct (neighbours fs nfo exts) as [r1 log1]; cbn [fst] in Hr; subst r1;
    try discriminate.
  destruct (same_stem_result fs nfo exts) as
    [_ [(p & Hin & Hacc & Hexists & Hr)|(Hr & Hnone2)]];
    destruct (same_stem fs nfo exts) as [r2 log2]; cbn [fst] in Hr; subst r2;
    try discriminate.
  destruct (decide (meta !! "type" = Some (u "episode"))) as [Htype|Hnot].
  - cbn [fst]. intros Hfuzzy. repeat split; [exact Hnone1 | exact Hnone2 |].
    intros _.
    destruct (fuzzy_result fs meta exts) as
      [(key & Hraise & _)|(showtitle & title & season & ep & Hs & Ht & Hse & Hep & Hrun)].
    { rewrite Hraise in Hfuzzy. discriminate. }
    rewrite Hrun in Hfuzzy. cbn [fst] in Hfuzzy. injection Hfuzzy as Hfind.
    exists showtitle, title, season, ep.
    repeat split; try (apply getitem_Ok; assumption).
    intros p Hin.
    destruct (List.find _ (rglob fs (u "*"))) as [q|] eqn:Hhit; [discriminate|].
    exact (find_none _ _ Hhit p Hin).
  - intros _. repeat split; [exact Hnone1 | exact Hnone2 | contradiction].
Qed.

(** X4: for a mapping that is not of type "episode" the call walks the
    library at most once, for the stem of the descriptor; it never makes
    the walk of the fuzzy strategy, and it raises no [KeyError]. *)
Theorem match_file_of_show_never_fuzzy :
  meta !! "type" <> Some (u "episode") ->
  (walks (_match_file fs nfo meta exts).2 = []
   \/ walks (_match_file fs nfo meta exts).2 = [stem nfo ++ u "*"])
  /\ ((_match_file fs nfo meta exts).1 = Ok None ->
      walks (_match_file fs nfo meta exts).2 = [stem nfo ++ u "*"])
  /\ forall key, (_match_file fs nfo meta exts).1 <> Raise (KeyError key).
Proof.
  intros Hnot. rewrite match_file_unfold.
  destruct (neighbours_result fs nfo exts) as
    [(Hr & _ & Hw)|[((ext & p & Hext & Hp & Hexists & Hr) & Hw)|(Hr & _ & Hw)]];
    destruct (neighbours fs nfo exts) as [r1 log1]; cbn [fst snd] in Hr, Hw; subst r1.
  - cbn [fst snd]. rewrite Hw. repeat split; [left; reflexivity | discriminate..].
  - cbn [fst snd]. rewrite Hw. repeat split; [left; reflexivity | discriminate..].
  - destruct (same_stem_result fs nfo exts) as
      [Hw2 [(p & Hin & Hacc & Hexists & Hr)|(Hr & _)]];
      destruct (same_stem fs nfo exts) as [r2 log2]; cbn [fst snd] in Hr, Hw2; subst r2.
    + cbn [fst snd]. rewrite walks_app, Hw, Hw2.
      repeat split; [right; reflexivity | discriminate..].
    + destruct (decide (meta !! "type" = Some (u "episode"))); [contradiction|].
      cbn [fst snd]. rewrite walks_app, Hw, Hw2.
      repeat split; [right; reflexivity | discriminate].
Qed.

Lemma match_file_raises_cases (e : exn) :
  (_match_file fs nfo meta exts).1 = Raise e ->
  (e = ValueError
   /\ exists ext, In ext exts /\ with_suffix nfo ext = Raise ValueError)
  \/ (exists key, e = KeyError key /\ meta !! key = None
                  /\ meta !! "type" = Some (u "episode")
                  /\ In key ["showtitle"; "title"; "season"; "episode"]).
Proof.
  rewrite match_file_unfold.
  destruct (neighbours_result fs nfo exts) as
    [(Hr & Hbad & _)|[((ext & p & Hext & Hp & Hexists & Hr) & _)|(Hr & _)]];
    destruct (neighbours fs nfo exts) as [r1 log1]; cbn [fst] in Hr; subst r1.
  - intros [= <-]. left. split; [reflexivity | exact Hbad].
  - discriminate.
  - destruct (same_stem_result fs nfo exts) as
      [_ [(p & Hin & Hacc & Hexists & Hr)|(Hr & _)]];
      destruct (same_stem fs nfo exts) as [r2 log2]; cbn [fst] in Hr; subst r2;
      [discriminate|].
    destruct (decide (meta !! "type" = Some (u "episode"))) as [Htype|_];
      [|discriminate].
    cbn [fst]. intros Hfuzzy. right.
    unfold fuzzy, getitem in Hfuzzy.
    destruct (meta !! "showtitle") eqn:H1;
      [|injection Hfuzzy as <-; exists "showtitle";
         repeat split; try assumption; simpl; tauto].
    destruct (meta !! "title") eqn:H2;
      [|injection Hfuzzy as <-; exists "title";
         repeat split; try assumption; simpl; tauto].
    destruct (meta !! "season") eqn:H3;
      [|injection Hfuzzy as <-; exists "season";
         repeat split; try assumption; simpl; tauto].
    destruct (meta !! "episode") eqn:H4;
      [|injection Hfuzzy as <-; exists "episode";
         repeat split; try assumption; simpl; tauto].
    discriminate.
Qed.

(** X5: [_match_file] raises only the [ValueError] of [with_suffix], for
    an extension that is no suffix or a descriptor without a name, and,
    for an episode, the [KeyError] of one of the keys showtitle, title,
    season and episode that the mapping lacks. *)
Theorem match_file_raises (e : exn) :
  (_match_file fs nfo meta exts).1 = Raise e ->
  (e = ValueError
   /\ exists ext, In ext exts /\ with_suffix nfo ext = Raise ValueError)
  \/ (exists key, e = KeyError key /\ meta !! key = None
                  /\ meta !! "type" = Some (u "episode")
                  /\ In key ["showtitle"; "title"; "season"; "episode"]).
Proof. exact (match_file_raises_cases e). Qed.
End MatchFile.

(** ** The catalog as a dictionary *)

Lemma dict_get_set_eq key show shows :
  dict_get key (dict_set key show shows) = Some show.
Proof.
  induction shows as [|[k v] rest IH]; cbn [dict_set dict_get].
  - destruct (decide (key = key)); [reflexivity|contradiction].
  - destruct (decide (k = key)) as [->|Hne]; cbn [dict_get].
    + destruct (decide (key = key)); [reflexivity|contradiction].
    + destruct (decide (k = key)); [contradiction|exact IH].
Qed.

Lemma dict_get_set_ne key key' show shows :
  key <> key' -> dict_get key' (dict_set key show shows) = dict_get key' shows.
Proof.
  intros Hne. induction shows as [|[k v] rest IH]; cbn [dict_set dict_get].
  - destruct (decide (key = key')); [contradiction|reflexivity].
  - destruct (decide (k = key)) as [->|Hk]; cbn [dict_get].
    + destruct (decide (key = key')); [contradiction|reflexivity].
    + destruct (decide (k = key')); [reflexivity|exact IH].
Qed.



(** The keys after a store: the same keys, with the new key at the end
    when it was absent. *)
Lemma keys_dict_set key show shows :
  map fst (dict_set key show shows)
  = if decide (key ∈ map fst shows) then map fst shows
    else map fst shows ++ [key].
Proof.
  induction shows as [|[k v] rest IH]; cbn [dict_set map fst].
  - destruct (decide (key ∈ [])) as [Hin|_]; [inversion Hin|reflexivity].
  - destruct (decide (k = key)) as [->|Hne]; cbn [map fst].
    + destruct (decide (key ∈ key :: map fst rest)) as [_|Hnot];
        [reflexivity | exfalso; apply Hnot; left].
    + rewrite IH.
      destruct (decide (key ∈ map fst rest)) as [Hin|Hnot];
        destruct (decide (key ∈ k :: map fst rest)) as [Hin'|Hnot'];
        try reflexivity.
      * exfalso. apply Hnot'. right. exact Hin.
      * exfalso. apply elem_of_cons in Hin' as [Heq|Hin'];
          [exact (Hne (eq_sym Heq)) | exact (Hnot Hin')].
Qed.

Lemma keys_setdefault_append key fresh ep shows :
  map fst (setdefault_append key fresh ep shows)
  = if decide (key ∈ map fst shows) then map fst shows
    else map fst shows ++ [key].
Proof.
  induction shows as [|[k v] rest IH]; cbn [setdefault_append map fst].
  - destruct (decide (key ∈ [])) as [Hin|_]; [inversion Hin|reflexivity].
  - destruct (decide (k = key)) as [->|Hne]; cbn [map fst].
    + destruct (decide (key ∈ key :: map fst rest)) as [_|Hnot];
        [reflexivity | exfalso; apply Hnot; left].
    + rewrite IH.
      destruct (decide (key ∈ map fst rest)) as [Hin|Hnot];
        destruct (decide (key ∈ k :: map fst rest)) as [Hin'|Hnot'];
        try reflexivity.
      * exfalso. apply Hnot'. right. exact Hin.
      * exfalso. apply elem_of_cons in Hin' as [Heq|Hin'];
          [exact (Hne (eq_sym Heq)) | exact (Hnot Hin')].
Qed.

Lemma NoDup_keys_grow key (keys : list str) :
  NoDup keys ->
  NoDup (if decide (key ∈ keys) then keys else keys ++ [key]).
Proof.
  intros Hnodup. destruct (decide (key ∈ keys)) as [_|Hnot]; [exact Hnodup|].
  apply NoDup_app. split; [exact Hnodup|]. split.
  - intros x Hx Hkey. apply list_elem_of_singleton in Hkey as ->. exact (Hnot Hx).
  - apply NoDup_singleton.
Qed.

Lemma dict_get_In key show shows :
  dict_get key shows = Some show -> In (key, show) shows.
Proof.
  induction shows as [|[k v] rest IH]; cbn [dict_get]; [discriminate|].
  destruct (decide (k = key)) as [->|_].
  - intros [= ->]. left. reflexivity.
  - intros Hrest. right. exact (IH Hrest).
Qed.

Lemma In_dict_get key show shows :
  NoDup (map fst shows) -> In (key, show) shows ->
  dict_get key shows = Some show.
Proof.
  induction shows as [|[k v] rest IH]; cbn [dict_get map fst]; intros Hnodup Hin.
  - destruct Hin.
  - apply NoDup_cons in Hnodup as [Hfresh Hnodup].
    destruct Hin as [[= -> ->]|Hin].
    + destruct (decide (key = key)); [reflexivity|contradiction].
    + destruct (decide (k = key)) as [->|_]; [|exact (IH Hnodup Hin)].
      exfalso. apply Hfresh, list_elem_of_In, in_map_iff. exists (key, show). auto.
Qed.

(** ** One descriptor at a time *)


Section ScanSteps.
Context `{!Unicode}.
Variable video_order : list str.
Variable fs : FS.
Hypothesis video_order_perm : video_order ≡ₚ VIDEO_EXTENSIONS.




Lemma scan_step_show shows nfo root :
  is_file fs nfo = true -> et_parse fs nfo = Ok root -> tag root = u "tvshow" ->
  scan_step video_order fs shows nfo
  = Ok (dict_set (show_key (or_empty (_get root (u "title"))))
          (Show.mk (or_empty (_get root (u "title")))
                   (or_empty (_get root (u "plot")))
                   (Some (or_empty (_get root (u "thumb")))) [])
          shows).
Proof.
  intros Hfile Hparse Htag. unfold scan_step. rewrite Hfile. cbn [negb].
  destruct (proj1 (parse_nfo_file_shape fs nfo root Hparse) Htag)
    as (meta & -> & Htype & Htitle & Hplot & Hthumb & _).
  rewrite bind_Ok_eq.
  destruct (decide (meta !! "type" = Some (u "show"))); [|contradiction].
  rewrite Htitle, bind_Ok_eq, Hplot, bind_Ok_eq, Hthumb, bind_Ok_eq.
  reflexivity.
Qed.

End ScanSteps.

(** ** The whole scan *)

Section ScanResults.
Context `{!Unicode}.
Variable video_order : list str.
Variable fs : FS.
Hypothesis video_order_perm : video_order ≡ₚ VIDEO_EXTENSIONS.

(** X6: a [tvshow] descriptor stores, under the key of its title, a show
    with that title, plot and thumb and with no episode, in the place of
    whatever show the key held (the episodes collected so far for this key
    are dropped); the other keys keep their shows. *)
Theorem show_descriptor_replaces_entry shows nfo root :
  is_file fs nfo = true -> et_parse fs nfo = Ok root -> tag root = u "tvshow" ->
  exists shows',
    scan_step video_order fs shows nfo = Ok shows'
    /\ dict_get (show_key (or_empty (_get root (u "title")))) shows'
       = Some (Show.mk (or_empty (_get root (u "title")))
                       (or_empty (_get root (u "plot")))
                       (Some (or_empty (_get root (u "thumb")))) [])
    /\ forall key, key <> show_key (or_empty (_get root (u "title"))) ->
                   dict_get key shows' = dict_get key shows.
Proof.
  intros Hfile Hparse Htag. eexists.
  split; [exact (scan_step_show video_order fs shows nfo root Hfile Hparse Htag)|].
  split; [apply dict_get_set_eq|].
  intros key Hne. apply dict_get_set_ne. congruence.
Qed.


(** What one turn of the loop does to the catalog. *)
Lemma scan_step_shape shows nfo shows' :
  scan_step video_order fs shows nfo = Ok shows' ->
  shows' = shows
  \/ (exists key show, shows' = dict_set key show shows)
  \/ (exists key fresh ep, shows' = setdefault_append key fresh ep shows).
Proof.
  unfold scan_step.
  destruct (negb (is_file fs nfo)); [intros [= <-]; left; reflexivity|].
  intros (meta & _ & Hstep)%bind_Ok.
  destruct (decide (meta !! "type" = Some (u "show"))) as [_|_].
  - apply bind_Ok in Hstep as (title & _ & Hstep).
    apply bind_Ok in Hstep as (plot & _ & Hstep).
    apply bind_Ok in Hstep as (thumb & _ & [= <-]).
    right. left. eauto.
  - destruct (decide (meta !! "type" = Some (u "episode"))) as [_|_];
      [|injection Hstep as <-; left; reflexivity].
    apply bind_Ok in Hstep as (showtitle & _ & Hstep).
    apply bind_Ok in Hstep as (title & _ & Hstep).
    apply bind_Ok in Hstep as (season & _ & Hstep).
    apply bind_Ok in Hstep as (episode & _ & Hstep).
    apply bind_Ok in Hstep as (plot & _ & Hstep).
    apply bind_Ok in Hstep as (video & _ & Hstep).
    apply bind_Ok in Hstep as (thumbnail & _ & Hstep).
    apply bind_Ok in Hstep as (showtitle' & _ & [= <-]).
    right. right. eauto.
Qed.

Lemma scan_step_keys shows nfo shows' :
  scan_step video_order fs shows nfo = Ok shows' ->
  NoDup (map fst shows) -> NoDup (map fst shows').
Proof.
  intros Hstep Hnodup.
  destruct (scan_step_shape shows nfo shows' Hstep)
    as [->|[(key & show & ->)|(key & fresh & ep & ->)]].
  - exact Hnodup.
  - rewrite keys_dict_set. apply NoDup_keys_grow. exact Hnodup.
  - rewrite keys_setdefault_append. apply NoDup_keys_grow. exact Hnodup.
Qed.

Lemma scan_loop_keys nfos : forall shows shows',
  scan_loop video_order fs shows nfos = Ok shows' ->
  NoDup (map fst shows) -> NoDup (map fst shows').
Proof.
  induction nfos as [|nfo rest IH]; cbn [scan_loop]; intros shows shows' Hloop Hnodup.
  - injection Hloop as <-. exact Hnodup.
  - apply bind_Ok in Hloop as (mid & Hstep & Hloop).
    exact (IH mid shows' Hloop (scan_step_keys shows nfo mid Hstep Hnodup)).
Qed.


End ScanResults.

Section ScanTheorems.
Context `{!Unicode}.
Variable video_order : list str.
Variable fs : FS.
Hypothesis video_order_perm : video_order ≡ₚ VIDEO_EXTENSIONS.
(** Every path of the walk for [*.nfo] has a name. *)
Hypothesis walk_names : forall nfo, In nfo (rglob fs (u "*.nfo")) -> name nfo <> [].




End ScanTheorems.

Section Links.
Context `{!Unicode}.
Variable video_order : list str.
Variable fs : FS.


Lemma scan_keys shows :
  scan video_order fs = Ok shows -> NoDup (map fst shows).
Proof.
  intros Hscan. eapply scan_loop_keys; [exact Hscan | constructor].
Qed.


(** X11: in a catalog that [scan] returned, the back link of the page of
    an episode, [/show/] followed by the key of its show title, leads to
    the show that holds the episode; and the link of the card of an
    episode, [/episode/] followed by its slug, finds an episode of that
    slug. *)
Theorem episode_links_resolve shows e :
  scan video_order fs = Ok shows -> In e (all_episodes shows) ->
  (exists show, dict_get (show_key (Episode.showtitle e)) shows = Some show
                /\ In e (Show.episodes show))
  /\ exists e', List.find (fun x => bool_decide (Episode.slug x = Episode.slug e))
                          (all_episodes shows) = Some e'
                /\ Episode.slug e' = Episode.slug e.
Proof.
  intros Hscan Hin. split.
  - unfold all_episodes in Hin. apply in_flat_map in Hin as ([key show] & Hpair & He).
    cbn [snd] in He. exists show. split; [|exact He].
    assert (well_keyed shows) as Hkeyed.
    { eapply scan_loop_well_keyed; [|exact Hscan]. intros k s []. }
    destruct (Hkeyed key show Hpair) as [_ Hepisodes].
    rewrite (Hepisodes e He).
    exact (In_dict_get key show shows (scan_keys shows Hscan) Hpair).
  - destruct (List.find (fun x => bool_decide (Episode.slug x = Episode.slug e))
                        (all_episodes shows)) as [e'|] eqn:Hfind.
    + exists e'. split; [reflexivity|].
      apply find_some in Hfind as [_ Hslug].
      exact (bool_decide_eq_true_1 _ Hslug).
    + exfalso. pose proof (find_none _ _ Hfind e Hin) as Hno.
      cbn beta in Hno. apply bool_decide_eq_false in Hno. exact (Hno eq_refl).
Qed.
End Links.

(** X12: the slug of an episode is made of its show title, season, episode
    and title only, and the page of an episode is looked up by slug from
    the front of the catalog: of two episodes that agree on these four
    fields, the lookup by the slug of the later one finds the earlier. *)
Theorem episode_lookup_first_wins (shows : catalog) before e1 after e2 :
  all_episodes shows = before ++ e1 :: after ->
  (forall e, In e before -> Episode.slug e <> Episode.slug e1) ->
  In e2 after ->
  Episode.showtitle e2 = Episode.showtitle e1 ->
  Episode.season e2 = Episode.season e1 ->
  Episode.episode e2 = Episode.episode e1 ->
  Episode.title e2 = Episode.title e1 ->
  Episode.slug e2 = Episode.slug e1
  /\ List.find (fun x => bool_decide (Episode.slug x = Episode.slug e2))
               (all_episodes shows) = Some e1.
Proof.
  intros Hsplit Hbefore _ Hshowtitle Hseason Hepisode Htitle.
  assert (Episode.slug e2 = Episode.slug e1) as Hslug.
  { unfold Episode.slug. rewrite Hshowtitle, Hseason, Hepisode, Htitle. reflexivity. }
  split; [exact Hslug|].
  rewrite Hsplit, Hslug. apply find_first.
  - intros e He. apply bool_decide_eq_false. exact (Hbefore e He).
  - apply bool_decide_eq_true. reflexivity.
Qed.

(** ** Cards and pages *)

Section Cards.
Context `{!Unicode}.

(** X13: the card of a show none of whose episodes has a thumbnail is an
    empty link: the title of the show is written inside the block of the
    thumbnails only. *)
Theorem show_card_without_thumbnail show href :
  (forall e, In e (Show.episodes show) -> truthy_opt (Episode.thumbnail e) = false) ->
  show_card show href = El "a" [] [("href", href)] [].
Proof.
  intros Hnone. unfold show_card, card_thumbs.
  assert (List.filter (fun e => truthy_opt (Episode.thumbnail e)) (Show.episodes show)
          = []) as ->.
  { induction (Show.episodes show) as [|e rest IH]; [reflexivity|].
    cbn [List.filter]. rewrite (Hnone e (or_introl eq_refl)).
    apply IH. intros x Hx. apply Hnone. right. exact Hx. }
  reflexivity.
Qed.

Lemma grid_images_length title thumbs : forall idx,
  length (grid_images title idx thumbs) = length thumbs.
Proof.
  induction thumbs as [|tbn rest IH]; intros idx; cbn [grid_images length];
    [reflexivity|]. rewrite IH. reflexivity.
Qed.

(** X14: the card of a show uses the thumbnails of at most four episodes,
    the first four that have one; with two or more it lays them out in a
    grid of exactly four cells, the cells without an image coming last. *)
Theorem show_card_grid_has_four_cells show href :
  (2 <= length (card_thumbs show))%nat ->
  (length (card_thumbs show) <= 4)%nat
  /\ exists cells,
       show_card show href
       = El "a" [] [("href", href)]
           [ El "div" [] []
               [ El "div" [] [] cells;
                 El "div" [] [] (title_parts "h2" "div" (Show.title show)) ] ]
       /\ length cells = 4%nat
       /\ cells = grid_images (Show.title show) 0 (card_thumbs show)
                  ++ replicate (4 - length (card_thumbs show)) (El "div" [] [] []).
Proof.
  intros Htwo.
  assert (length (card_thumbs show) <= 4)%nat as Hfour.
  { unfold card_thumbs. rewrite length_take. lia. }
  split; [exact Hfour|]. eexists. split; [|split; [|reflexivity]].
  - unfold show_card.
    destruct (card_thumbs show) as [|t1 [|t2 rest]]; cbn [length] in Htwo; try lia.
    destruct (decide (t1 :: t2 :: rest = [])); [discriminate|]. reflexivity.
  - rewrite length_app, grid_images_length, length_replicate. lia.
Qed.

Lemma card_grid_raises {A} (items : list A) (card : A -> result html) x e :
  In x items -> card x = Raise e -> exists e', card_grid items card = Raise e'.
Proof.
  induction items as [|item rest IH]; intros Hin Hx; [destruct Hin|].
  cbn [card_grid]. destruct (card item) as [c|e'] eqn:Hcard.
  - destruct Hin as [->|Hin]; [congruence|].
    destruct (IH Hin Hx) as [e'' ->]. rewrite bind_Ok_eq. eexists. reflexivity.
  - eexists. reflexivity.
Qed.

(** X15: one episode is enough to make the page of its show fail: when an
    episode of the show has a thumbnail, a season and an episode number,
    and [int] does not accept its season, the show page raises. *)
Theorem show_detail_fails_with_one_episode shows show_hash show e :
  dict_get show_hash shows = Some show -> In e (Show.episodes show) ->
  truthy_opt (Episode.thumbnail e) = true ->
  truthy (Episode.season e) = true -> truthy (Episode.episode e) = true ->
  (forall n, py_int (Episode.season e) <> Ok n) ->
  exists err, show_detail shows show_hash = Raise err.
Proof.
  intros Hget Hin Hthumb Hseason Hepisode Hno. unfold show_detail. rewrite Hget.
  destruct (Show.episodes show) as [|e0 rest] eqn:Heps; [destruct Hin|].
  destruct (card_grid_raises (sorted episode_key (e0 :: rest)) episode_card e ValueError)
    as [err Hgrid].
  - apply list_elem_of_In. rewrite sorted_perm. apply list_elem_of_In. exact Hin.
  - exact (episode_card_raises e Hthumb Hseason Hepisode Hno).
  - exists err. rewrite Hgrid. reflexivity.
Qed.

(** X16: the season letter of a season that [int] accepts as [n] is the
    character of code [64 + n]: ['A'] for 1 and ['Z'] for 26, but ['@'] for
    0 and a character past ['Z'] from 27 on; [chr] raises [ValueError]
    when [64 + n] is negative or beyond U+10FFFF, and [OverflowError] when
    it does not fit a C int. *)
Theorem season_letter_bounds season n :
  py_int season = Ok n ->
  ((0 <= 64 + n < 0x110000)%Z -> season_letter season = Ok (64 + n)%Z)
  /\ ((- 2 ^ 31 <= 64 + n < 0)%Z \/ (0x110000 <= 64 + n < 2 ^ 31)%Z ->
      season_letter season = Raise ValueError)
  /\ ((64 + n < - 2 ^ 31)%Z \/ (2 ^ 31 <= 64 + n)%Z ->
      season_letter season = Raise OverflowError).
Proof.
  intros Hint. unfold season_letter. rewrite Hint, bind_Ok_eq. unfold py_chr.
  replace (65 + n - 1)%Z with (64 + n)%Z by lia.
  repeat split; intros Hrange; repeat case_decide; try reflexivity; lia.
Qed.
End Cards.

(** ** Descriptors without titles *)

Section EmptyTitles.
Context `{!Unicode}.

Lemma normalize_empty : normalize [] = [].
Proof. reflexivity. Qed.

Lemma str_in_empty y : str_in [] y = true.
Proof. destruct y; reflexivity. Qed.

(** X17: for an episode whose show title and title are empty, as they are
    when the descriptor has no [showtitle] and no [title] child, every
    stem holds both tokens: the fuzzy strategy returns the first path of
    the walk of the library that has an accepted extension, whatever its
    name. *)
Theorem fuzzy_without_titles fs meta exts season ep :
  getitem meta "showtitle" = Ok [] -> getitem meta "title" = Ok [] ->
  getitem meta "season" = Ok season -> getitem meta "episode" = Ok ep ->
  fuzzy fs meta exts
  = (Ok (path_str <$> List.find (accepted exts) (rglob fs (u "*"))),
     [QRglob (u "*")]).
Proof.
  intros Hshowtitle Htitle Hseason Hep. unfold fuzzy.
  rewrite Hshowtitle, Htitle, Hseason, Hep.
  unfold lift, ask_rglob, mbind, traced_bind, mret, traced_ret.
  cbv beta iota zeta. rewrite normalize_empty.
  f_equal. f_equal. f_equal.
  induction (rglob fs (u "*")) as [|p rest IH]; [reflexivity|].
  cbn [List.find]. unfold fuzzy_hit at 1.
  rewrite !str_in_empty, IH. cbn [orb andb].
  rewrite andb_true_r. reflexivity.
Qed.
End EmptyTitles.

(** ** The form of the keys *)

Lemma land_byte x : (0 <= Z.land x 0xff < 256)%Z.
Proof.
  change 0xff%Z with (Z.ones 8). rewrite Z.land_ones by lia.
  apply Z.mod_pos_bound. reflexivity.
Qed.

Lemma le_bytes_bytes n x : Forall (fun b => 0 <= b < 256)%Z (MD5.le_bytes n x).
Proof.
  unfold MD5.le_bytes. apply Forall_forall. intros b Hb.
  apply list_elem_of_In, in_map_iff in Hb as (i & <- & _). apply land_byte.
Qed.

Lemma digest_bytes msg :
  length (MD5.digest msg) = 16%nat /\ Forall (fun b => 0 <= b < 256)%Z (MD5.digest msg).
Proof.
  unfold MD5.digest.
  destruct (fold_left MD5.compress _ _) as [[[a b] c] d].
  split; [reflexivity|].
  repeat (apply Forall_app; split); apply le_bytes_bytes.
Qed.

Lemma hex_digit_char n : (0 <= n < 16)%Z -> hex_char (MD5.hex_digit n).
Proof.
  intros Hn. unfold hex_char, MD5.hex_digit.
  destruct (n <? 10)%Z eqn:Hlt; [apply Z.ltb_lt in Hlt | apply Z.ltb_ge in Hlt]; lia.
Qed.

Lemma hexdigest_chars msg :
  length (MD5.hexdigest msg) = 32%nat /\ Forall hex_char (MD5.hexdigest msg).
Proof.
  unfold MD5.hexdigest. destruct (digest_bytes msg) as [Hlen Hbytes].
  revert Hlen Hbytes. generalize (MD5.digest msg). intros bytes Hlen Hbytes. split.
  - rewrite (flat_map_constant_length (c := 2%nat)); [lia|]. reflexivity.
  - apply Forall_forall. intros c Hc.
    apply list_elem_of_In, in_flat_map in Hc as (b & Hb & Hc).
    rewrite Forall_forall in Hbytes.
    specialize (Hbytes b (proj2 (list_elem_of_In _ _) Hb)).
    destruct Hc as [<-|[<-|[]]]; apply hex_digit_char.
    + split; [apply Z.div_pos; lia | apply Z.div_lt_upper_bound; lia].
    + apply Z.mod_pos_bound. reflexivity.
Qed.

Lemma md5_hex8_chars raw :
  length (md5_hex8 raw) = 8%nat /\ Forall hex_char (md5_hex8 raw).
Proof.
  unfold md5_hex8.
  destruct (hexdigest_chars (encode raw)) as [Hlen Hchars]. split.
  - rewrite length_take. lia.
  - apply Forall_take. exact Hchars.
Qed.

(** X18: the key of a show and the slug of an episode are strings of
    exactly eight lowercase hexadecimal digits, whatever the texts that are
    hashed (texts that [encode] accepts: a text of a descriptor holds no
    lone surrogate). *)
Theorem keys_are_eight_hex_digits :
  (forall title, length (show_key title) = 8%nat /\ Forall hex_char (show_key title))
  /\ (forall ep, length (Episode.slug ep) = 8%nat /\ Forall hex_char (Episode.slug ep)).
Proof.
  split; [intros title; apply md5_hex8_chars | intros ep; apply md5_hex8_chars].
Qed.

(** ** Percent-encoding round trip *)

Section Utf8.
Local Open Scope Z_scope.

Lemma lor_disjoint hi n lo :
  0 <= n -> 0 <= lo < 2 ^ n -> Z.lor (hi * 2 ^ n) lo = hi * 2 ^ n + lo.
Proof.
  intros Hn Hlo.
  assert (Z.land (hi * 2 ^ n) lo = 0) as Hland.
  { apply Z.bits_inj'. intros i Hi. rewrite Z.land_spec, Z.bits_0.
    destruct (Z.lt_ge_cases i n) as [Hlt|Hge].
    - rewrite Z.mul_pow2_bits_low by lia. reflexivity.
    - rewrite <- (Z.mod_small lo (2 ^ n)) by lia.
      rewrite Z.mod_pow2_bits_high by lia. apply andb_false_r. }
  rewrite <- Z.lxor_lor by exact Hland. symmetry.
  apply Z.add_nocarry_lxor. exact Hland.
Qed.

Lemma lor_lead2 x : 0 <= x < 32 -> Z.lor 0xc0 x = 192 + x.
Proof. intros Hx. exact (lor_disjoint 6 5 x ltac:(lia) Hx). Qed.

Lemma lor_lead3 x : 0 <= x < 16 -> Z.lor 0xe0 x = 224 + x.
Proof. intros Hx. exact (lor_disjoint 14 4 x ltac:(lia) Hx). Qed.

Lemma lor_lead4 x : 0 <= x < 8 -> Z.lor 0xf0 x = 240 + x.
Proof. intros Hx. exact (lor_disjoint 30 3 x ltac:(lia) Hx). Qed.

Lemma lor_cont x : 0 <= x < 64 -> Z.lor 0x80 x = 128 + x.
Proof. intros Hx. exact (lor_disjoint 2 6 x ltac:(lia) Hx). Qed.

Lemma shiftr_div c n : 0 <= n -> Z.shiftr c n = c / 2 ^ n.
Proof. apply Z.shiftr_div_pow2. Qed.

Lemma land_low c n : 0 <= n -> Z.land c (Z.ones n) = c mod 2 ^ n.
Proof. apply Z.land_ones. Qed.

(** The bytes of one character. *)
Lemma utf8_char_form c :
  scalar c ->
  c < 0x80 /\ utf8_char c = [c]
  \/ 0x80 <= c < 0x800 /\ utf8_char c = [192 + c / 64; 128 + c mod 64]
  \/ 0x800 <= c < 0x10000
     /\ utf8_char c = [224 + c / 4096; 128 + (c / 64) mod 64; 128 + c mod 64]
  \/ 0x10000 <= c
     /\ utf8_char c = [240 + c / 262144; 128 + (c / 4096) mod 64;
                       128 + (c / 64) mod 64; 128 + c mod 64].
Proof.
  intros Hc. unfold scalar in Hc. unfold utf8_char.
  change 0x3f with (Z.ones 6).
  rewrite !land_low, !shiftr_div by lia.
  change (2 ^ 6) with 64. change (2 ^ 12) with 4096. change (2 ^ 18) with 262144.
  destruct (c <? 0x80) eqn:H1; [apply Z.ltb_lt in H1; left; auto|].
  apply Z.ltb_ge in H1.
  destruct (c <? 0x800) eqn:H2.
  { apply Z.ltb_lt in H2. right. left. split; [lia|].
    rewrite lor_lead2, lor_cont; [reflexivity|..]; Z.div_mod_to_equations; lia. }
  apply Z.ltb_ge in H2.
  destruct (c <? 0x10000) eqn:H3.
  { apply Z.ltb_lt in H3. right. right. left. split; [lia|].
    rewrite lor_lead3, !lor_cont; [reflexivity|..]; Z.div_mod_to_equations; lia. }
  apply Z.ltb_ge in H3. right. right. right. split; [lia|].
  rewrite lor_lead4, !lor_cont; [reflexivity|..]; Z.div_mod_to_equations; lia.
Qed.

Lemma continuation_true lo hi b : lo <= b <= hi -> continuation lo hi b = true.
Proof.
  intros Hb. unfold continuation. apply andb_true_iff.
  split; apply Z.leb_le; lia.
Qed.

Lemma continuation_false lo hi b : b < lo \/ hi < b -> continuation lo hi b = false.
Proof.
  intros Hb. unfold continuation. apply andb_false_iff.
  destruct Hb; [left|right]; apply Z.leb_gt; lia.
Qed.

Lemma low6_mod b : low6 b = b mod 64.
Proof. unfold low6. change 0x3f with (Z.ones 6). apply Z.land_ones. lia. Qed.

Lemma join hi n lo :
  0 <= n -> 0 <= lo < 2 ^ n -> Z.lor (Z.shiftl hi n) lo = hi * 2 ^ n + lo.
Proof.
  intros Hn Hlo. rewrite Z.shiftl_mul_pow2 by exact Hn. apply lor_disjoint; assumption.
Qed.

(** Decoding gives back one character and goes on with the rest. *)
Lemma utf8_decode_char c rest :
  scalar c -> utf8_decode (utf8_char c ++ rest) = c :: utf8_decode rest.
Proof.
  intros Hc.
  destruct (utf8_char_form c Hc) as [[H1 ->]|[[H2 ->]|[[H3 ->]|[H4 ->]]]];
    unfold scalar in Hc; cbn [app utf8_decode].
  - assert ((c <? 0x80) = true) as -> by (apply Z.ltb_lt; lia). reflexivity.
  - assert ((192 + c / 64 <? 0x80) = false) as ->
      by (apply Z.ltb_ge; Z.div_mod_to_equations; lia).
    rewrite (continuation_true 0xc2 0xdf) by (Z.div_mod_to_equations; lia).
    rewrite (continuation_true 0x80 0xbf) by (Z.div_mod_to_equations; lia).
    f_equal. rewrite low6_mod. change 0x1f with (Z.ones 5).
    rewrite land_low by lia. rewrite join by (Z.div_mod_to_equations; lia).
    change (2 ^ 5) with 32. change (2 ^ 6) with 64.
    Z.div_mod_to_equations; lia.
  - assert ((224 + c / 4096 <? 0x80) = false) as ->
      by (apply Z.ltb_ge; Z.div_mod_to_equations; lia).
    rewrite (continuation_false 0xc2 0xdf) by (Z.div_mod_to_equations; lia).
    rewrite (continuation_true 0xe0 0xef) by (Z.div_mod_to_equations; lia).
    rewrite (continuation_true _ _ (128 + (c / 64) mod 64)).
    2:{ destruct (Z.eqb_spec (224 + c / 4096) 0xe0);
          destruct (Z.eqb_spec (224 + c / 4096) 0xed);
          Z.div_mod_to_equations; lia. }
    rewrite (continuation_true 0x80 0xbf) by (Z.div_mod_to_equations; lia).
    f_equal. rewrite !low6_mod. change 0x0f with (Z.ones 4).
    rewrite land_low by lia.
    rewrite (join _ 6) by (Z.div_mod_to_equations; lia).
    rewrite (join _ 12) by (change (2 ^ 6) with 64; change (2 ^ 12) with 4096;
                            Z.div_mod_to_equations; lia).
    change (2 ^ 4) with 16. change (2 ^ 6) with 64. change (2 ^ 12) with 4096.
    Z.div_mod_to_equations; lia.
  - assert ((240 + c / 262144 <? 0x80) = false) as ->
      by (apply Z.ltb_ge; Z.div_mod_to_equations; lia).
    rewrite (continuation_false 0xc2 0xdf) by (Z.div_mod_to_equations; lia).
    rewrite (continuation_false 0xe0 0xef) by (Z.div_mod_to_equations; lia).
    rewrite (continuation_true 0xf0 0xf4) by (Z.div_mod_to_equations; lia).
    rewrite (continuation_true _ _ (128 + (c / 4096) mod 64)).
    2:{ destruct (Z.eqb_spec (240 + c / 262144) 0xf0);
          destruct (Z.eqb_spec (240 + c / 262144) 0xf4);
          Z.div_mod_to_equations; lia. }
    rewrite !(continuation_true 0x80 0xbf) by (Z.div_mod_to_equations; lia).
    f_equal. rewrite !low6_mod. change 0x07 with (Z.ones 3).
    rewrite land_low by lia.
    rewrite (join _ 6) by (Z.div_mod_to_equations; lia).
    rewrite (join _ 12) by (change (2 ^ 6) with 64; change (2 ^ 12) with 4096;
                            Z.div_mod_to_equations; lia).
    rewrite (join _ 18) by (change (2 ^ 6) with 64; change (2 ^ 12) with 4096;
                            change (2 ^ 18) with 262144;
                            Z.div_mod_to_equations; lia).
    change (2 ^ 3) with 8. change (2 ^ 6) with 64. change (2 ^ 12) with 4096.
    change (2 ^ 18) with 262144.
    Z.div_mod_to_equations; lia.
Qed.

Lemma utf8_decode_encode s : Forall scalar s -> utf8_decode (encode s) = s.
Proof.
  induction 1 as [|c s Hc _ IH]; [reflexivity|].
  unfold encode in *. cbn [flat_map].
  rewrite (utf8_decode_char c _ Hc), IH. reflexivity.
Qed.

Lemma utf8_char_bytes c : scalar c -> Forall (fun b => 0 <= b < 256) (utf8_char c).
Proof.
  intros Hc.
  destruct (utf8_char_form c Hc) as [[H1 ->]|[[H2 ->]|[[H3 ->]|[H4 ->]]]];
    unfold scalar in Hc; repeat constructor; Z.div_mod_to_equations; lia.
Qed.

Lemma encode_bytes s : Forall scalar s -> Forall (fun b => 0 <= b < 256) (encode s).
Proof.
  induction 1 as [|c s Hc _ IH]; [constructor|].
  unfold encode in *. cbn [flat_map]. apply Forall_app.
  split; [exact (utf8_char_bytes c Hc) | exact IH].
Qed.
End Utf8.

Section Quote.
Local Open Scope Z_scope.

Lemma unreserved_ascii b : unreserved b = true -> 0 <= b < 0x80 /\ b <> 37.
Proof.
  unfold unreserved, ascii_alnum, continuation. intros Hb.
  apply orb_true_iff in Hb as [Hb|Hb].
  - repeat (apply orb_true_iff in Hb as [Hb|Hb]);
      apply andb_true_iff in Hb as [Hlo Hhi];
      apply Z.leb_le in Hlo, Hhi; lia.
  - apply bool_decide_eq_true, list_elem_of_In in Hb.
    vm_compute in Hb. intuition lia.
Qed.

Lemma hex_value_upper x : 0 <= x < 16 -> hex_value (hex_upper x) = Some x.
Proof.
  intros Hx. unfold hex_value, hex_upper.
  destruct (Z.ltb_spec x 10).
  - rewrite (continuation_true 48 57) by lia. f_equal. lia.
  - rewrite (continuation_false 48 57) by lia.
    rewrite (continuation_true 65 70) by lia. f_equal. lia.
Qed.

Lemma quote_unfold s :
  quote s
  = flat_map (fun b => if unreserved b then [b]
                       else [37; hex_upper (b / 16); hex_upper (b mod 16)])
             (encode s).
Proof. reflexivity. Qed.

Lemma unquote_items_escape b rest :
  0 <= b < 256 ->
  unquote_items ((if unreserved b then [b]
                  else [37; hex_upper (b / 16); hex_upper (b mod 16)]) ++ rest)
  = inl b :: unquote_items rest.
Proof.
  intros Hb. destruct (unreserved b) eqn:Hsafe; cbn [app unquote_items].
  - destruct (unreserved_ascii b Hsafe) as [Hascii Hpercent].
    destruct (Z.eqb_spec b 37); [contradiction|].
    destruct (Z.ltb_spec b 0x80); [reflexivity|lia].
  - change (37 =? 37) with true. cbv iota.
    rewrite !hex_value_upper by (Z.div_mod_to_equations; lia).
    do 2 f_equal. Z.div_mod_to_equations; lia.
Qed.

Lemma unquote_items_escapes bs :
  Forall (fun b => 0 <= b < 256) bs ->
  unquote_items (flat_map (fun b => if unreserved b then [b]
                                    else [37; hex_upper (b / 16); hex_upper (b mod 16)])
                          bs)
  = map inl bs.
Proof.
  induction 1 as [|b bs Hb _ IH]; [reflexivity|].
  cbn [flat_map map]. rewrite (unquote_items_escape b _ Hb), IH. reflexivity.
Qed.

Lemma decode_runs_bytes bs : forall run_rev,
  decode_runs run_rev (map inl bs) = utf8_decode (rev run_rev ++ bs).
Proof.
  induction bs as [|b bs IH]; intros run_rev; cbn [map decode_runs].
  - rewrite app_nil_r. reflexivity.
  - rewrite IH. cbn [rev]. rewrite <- app_assoc. reflexivity.
Qed.

Lemma escapes_without_percent bs :
  ~ In 37 (flat_map (fun b => if unreserved b then [b]
                              else [37; hex_upper (b / 16); hex_upper (b mod 16)])
                    bs) ->
  Forall (fun b => unreserved b = true) bs.
Proof.
  induction bs as [|b bs IH]; [constructor|].
  cbn [flat_map]. intros Hnot. constructor.
  - destruct (unreserved b); [reflexivity|].
    exfalso. apply Hnot. left. reflexivity.
  - apply IH. intros Hin. apply Hnot. apply in_or_app. right. exact Hin.
Qed.

Lemma escapes_unreserved bs :
  Forall (fun b => unreserved b = true) bs ->
  flat_map (fun b => if unreserved b then [b]
                     else [37; hex_upper (b / 16); hex_upper (b mod 16)]) bs
  = bs.
Proof.
  induction 1 as [|b bs Hb _ IH]; [reflexivity|].
  cbn [flat_map]. rewrite Hb, IH. reflexivity.
Qed.

Lemma utf8_decode_ascii bs :
  Forall (fun b => unreserved b = true) bs -> utf8_decode bs = bs.
Proof.
  induction 1 as [|b bs Hb _ IH]; [reflexivity|].
  cbn [utf8_decode]. destruct (unreserved_ascii b Hb) as [Hascii _].
  destruct (Z.ltb_spec b 0x80); [|lia]. rewrite IH. reflexivity.
Qed.

Lemma unquote_undoes_quote s : Forall scalar s -> unquote (quote s) = s.
Proof.
  intros Hs. pose proof (utf8_decode_encode s Hs) as Hdecode.
  unfold unquote. rewrite quote_unfold.
  destruct (decide (37 ∈ _)) as [_|Hnone].
  - rewrite (unquote_items_escapes _ (encode_bytes s Hs)).
    rewrite decode_runs_bytes. exact Hdecode.
  - assert (Forall (fun b => unreserved b = true) (encode s)) as Hsafe.
    { apply escapes_without_percent. intros Hin. apply Hnone, list_elem_of_In, Hin. }
    rewrite (escapes_unreserved _ Hsafe).
    rewrite (utf8_decode_ascii _ Hsafe) in Hdecode. exact Hdecode.
Qed.

(** X19: [unquote] undoes [quote] on every string of Unicode scalar
    values: the text of a link that a page wrote with [quote] is read back
    unchanged. *)
Theorem unquote_quote s : Forall scalar s -> unquote (quote s) = s.
Proof. exact (unquote_undoes_quote s). Qed.
End Quote.

(** ** The links to files *)







Section FileLinks.
Variable fs : FS.

End FileLinks.

(** ** The further properties on the example libraries *)

Lemma match_file_sound_witness :
  (exists ext p, In ext mkv_first /\ with_suffix ep_nfo ext = Ok p
                 /\ exists_ ep_one_neighbour p = true
                 /\ u "/lib/Show/ep.mp4" = path_str p)
  \/ (exists p, In p (rglob ep_one_neighbour (stem ep_nfo ++ u "*"))
                /\ accepted mkv_first p = true
                /\ exists_ ep_one_neighbour p = true
                /\ u "/lib/Show/ep.mp4" = path_str p)
  \/ ((∅ : gmap string str) !! "type" = Some (u "episode")
      /\ exists showtitle p,
           (∅ : gmap string str) !! "showtitle" = Some showtitle
           /\ In p (rglob ep_one_neighbour (u "*"))
           /\ accepted mkv_first p = true
           /\ str_in (normalize showtitle) (normalize (stem p)) = true
           /\ u "/lib/Show/ep.mp4" = path_str p).
Proof.
  refine (match_file_sound ep_one_neighbour ep_nfo ∅ mkv_first (u "/lib/Show/ep.mp4") _).
  vm_compute. reflexivity.
Defined.

Lemma match_file_none_witness :
  (forall ext, In ext VIDEO_EXTENSIONS ->
     exists p, with_suffix pilot_nfo ext = Ok p /\ exists_ myshow_library p = false)
  /\ (forall p, In p (rglob myshow_library (stem pilot_nfo ++ u "*")) ->
                accepted VIDEO_EXTENSIONS p = true -> exists_ myshow_library p = false)
  /\ (pilot_meta !! "type" = Some (u "episode") ->
      exists showtitle title season ep,
        pilot_meta !! "showtitle" = Some showtitle /\ pilot_meta !! "title" = Some title
        /\ pilot_meta !! "season" = Some season /\ pilot_meta !! "episode" = Some ep
        /\ forall p, In p (rglob myshow_library (u "*")) ->
             fuzzy_hit VIDEO_EXTENSIONS (normalize showtitle) (normalize title)
               [ u "s" ++ season ++ u "e" ++ ep;
                 u "s" ++ zfill 2 season ++ u "e" ++ zfill 2 ep ] p = false).
Proof.
  refine (match_file_none myshow_library pilot_nfo pilot_meta VIDEO_EXTENSIONS _).
  vm_compute. reflexivity.
Defined.

Lemma match_file_of_show_never_fuzzy_witness :
  (walks (_match_file myshow_library pilot_nfo ∅ VIDEO_EXTENSIONS).2 = []
   \/ walks (_match_file myshow_library pilot_nfo ∅ VIDEO_EXTENSIONS).2
      = [stem pilot_nfo ++ u "*"])
  /\ ((_match_file myshow_library pilot_nfo ∅ VIDEO_EXTENSIONS).1 = Ok None ->
      walks (_match_file myshow_library pilot_nfo ∅ VIDEO_EXTENSIONS).2
      = [stem pilot_nfo ++ u "*"])
  /\ forall key,
       (_match_file myshow_library pilot_nfo ∅ VIDEO_EXTENSIONS).1 <> Raise (KeyError key).
Proof.
  refine (match_file_of_show_never_fuzzy myshow_library pilot_nfo ∅ VIDEO_EXTENSIONS _).
  rewrite lookup_empty. discriminate.
Defined.

Lemma match_file_raises_witness :
  (_match_file ep_one_neighbour ep_nfo ∅ [u "mp4"]).1 = Raise ValueError
  /\ ((ValueError = ValueError
       /\ exists ext, In ext [u "mp4"] /\ with_suffix ep_nfo ext = Raise ValueError)
      \/ (exists key, ValueError = KeyError key /\ (∅ : gmap string str) !! key = None
                      /\ (∅ : gmap string str) !! "type" = Some (u "episode")
                      /\ In key ["showtitle"; "title"; "season"; "episode"])).
Proof.
  assert ((_match_file ep_one_neighbour ep_nfo ∅ [u "mp4"]).1 = Raise ValueError)
    as Hrun by (vm_compute; reflexivity).
  split; [exact Hrun|].
  exact (match_file_raises ep_one_neighbour ep_nfo ∅ [u "mp4"] ValueError Hrun).
Defined.

Lemma show_descriptor_replaces_entry_witness :
  exists shows',
    scan_step VIDEO_EXTENSIONS foo_episode_first
              [(show_key (u "Foo"), Show.mk (u "Foo") [] None [foo_pilot])]
              foo_show_nfo = Ok shows'
    /\ dict_get (show_key (or_empty (_get foo_tvshow (u "title")))) shows'
       = Some (Show.mk (or_empty (_get foo_tvshow (u "title")))
                       (or_empty (_get foo_tvshow (u "plot")))
                       (Some (or_empty (_get foo_tvshow (u "thumb")))) [])
    /\ forall key, key <> show_key (or_empty (_get foo_tvshow (u "title"))) ->
         dict_get key shows'
         = dict_get key [(show_key (u "Foo"), Show.mk (u "Foo") [] None [foo_pilot])].
Proof.
  refine (show_descriptor_replaces_entry VIDEO_EXTENSIONS foo_episode_first
            [(show_key (u "Foo"), Show.mk (u "Foo") [] None [foo_pilot])]
            foo_show_nfo foo_tvshow _ _ _).
  - vm_compute. reflexivity.
  - vm_compute. reflexivity.
  - reflexivity.
Defined.





Lemma foo_scan : scan VIDEO_EXTENSIONS foo_show_first = Ok foo_catalog.
Proof. vm_compute. reflexivity. Qed.


Lemma episode_links_resolve_witness :
  (exists show, dict_get (show_key (Episode.showtitle foo_pilot)) foo_catalog = Some show
                /\ In foo_pilot (Show.episodes show))
  /\ exists e', List.find (fun x => bool_decide (Episode.slug x = Episode.slug foo_pilot))
                          (all_episodes foo_catalog) = Some e'
                /\ Episode.slug e' = Episode.slug foo_pilot.
Proof.
  refine (episode_links_resolve VIDEO_EXTENSIONS foo_show_first foo_catalog foo_pilot
            foo_scan _).
  left. reflexivity.
Defined.

Lemma episode_lookup_first_wins_witness :
  Episode.slug pilot_second = Episode.slug pilot_first
  /\ List.find (fun x => bool_decide (Episode.slug x = Episode.slug pilot_second))
               (all_episodes twin_catalog) = Some pilot_first.
Proof.
  refine (episode_lookup_first_wins twin_catalog [] pilot_first [pilot_second]
            pilot_second _ _ _ eq_refl eq_refl eq_refl eq_refl).
  - reflexivity.
  - intros e [].
  - left. reflexivity.
Defined.

Lemma show_card_without_thumbnail_witness :
  show_card (Show.mk (u "Foo") (u "About Foo") (Some []) [foo_pilot]) (u "/show/1356c67d")
  = El "a" [] [("href", u "/show/1356c67d")] [].
Proof.
  refine (show_card_without_thumbnail _ _ _).
  intros e [<-|[]]. reflexivity.
Defined.

Lemma show_card_grid_has_four_cells_witness :
  (length (card_thumbs thumbs_show) <= 4)%nat
  /\ exists cells,
       show_card thumbs_show (u "/show/x")
       = El "a" [] [("href", u "/show/x")]
           [ El "div" [] []
               [ El "div" [] [] cells;
                 El "div" [] [] (title_parts "h2" "div" (Show.title thumbs_show)) ] ]
       /\ length cells = 4%nat
       /\ cells = grid_images (Show.title thumbs_show) 0 (card_thumbs thumbs_show)
                  ++ replicate (4 - length (card_thumbs thumbs_show)) (El "div" [] [] []).
Proof.
  refine (show_card_grid_has_four_cells thumbs_show (u "/show/x") _).
  vm_compute. lia.
Defined.

Lemma show_detail_fails_with_one_episode_witness :
  exists err, show_detail special_catalog (show_key (u "Foo")) = Raise err.
Proof.
  refine (show_detail_fails_with_one_episode special_catalog (show_key (u "Foo"))
            (Show.mk (u "Foo") [] None [special_episode]) special_episode
            _ _ eq_refl eq_refl eq_refl _).
  - vm_compute. reflexivity.
  - left. reflexivity.
  - apply py_int_Special.
Defined.

Lemma season_letter_bounds_witness :
  ((0 <= 64 + 1 < 0x110000)%Z -> season_letter (u "1") = Ok (64 + 1)%Z)
  /\ ((- 2 ^ 31 <= 64 + 1 < 0)%Z \/ (0x110000 <= 64 + 1 < 2 ^ 31)%Z ->
      season_letter (u "1") = Raise ValueError)
  /\ ((64 + 1 < - 2 ^ 31)%Z \/ (2 ^ 31 <= 64 + 1)%Z ->
      season_letter (u "1") = Raise OverflowError).
Proof.
  refine (season_letter_bounds (u "1") 1%Z _). vm_compute. reflexivity.
Defined.

Lemma fuzzy_without_titles_witness :
  fuzzy myshow_library untitled_meta VIDEO_EXTENSIONS
  = (Ok (path_str <$> List.find (accepted VIDEO_EXTENSIONS)
                                (rglob myshow_library (u "*"))),
     [QRglob (u "*")]).
Proof.
  refine (fuzzy_without_titles myshow_library untitled_meta VIDEO_EXTENSIONS [] [] _ _ _ _);
    vm_compute; reflexivity.
Defined.

Lemma unquote_quote_witness :
  unquote (quote (u "lib/My Show/" ++ [0xe9; 0x20ac; 0x1f600]%Z ++ u " 100%.mkv"))
  = u "lib/My Show/" ++ [0xe9; 0x20ac; 0x1f600]%Z ++ u " 100%.mkv".
Proof.
  refine (unquote_quote _ _).
  refine (bool_decide_unpack _ _). vm_compute. exact I.
Defined.


(** ** The outcomes of the pages *)

Section Outcomes.
Context `{!Unicode}.









Variable video_order : list str.
Variable fs : FS.

(** X24: the keys of a catalog that [scan] returned and the slugs of its
    episodes are strings of eight hexadecimal digits, so that a hash of
    another length, or with another character, names no show and no
    episode: both routes answer with their "Not Found" page, a page served
    as every other page is, and raise nothing. *)
Theorem malformed_hash_not_found shows hash :
  scan video_order fs = Ok shows ->
  length hash <> 8%nat \/ ~ Forall hex_char hash ->
  show_detail shows hash
  = Ok (TagResponse (_not_found (u "Show Not Found") (u "id=" ++ hash)))
  /\ episode_detail shows hash
     = Ok (TagResponse (_not_found (u "Episode Not Found") hash))
  /\ status_code (show_detail shows hash) = 200%Z
  /\ status_code (episode_detail shows hash) = 200%Z.
Proof.
  intros Hscan Hhash.
  assert (forall raw, md5_hex8 raw <> hash) as Hother.
  { intros raw <-. destruct (md5_hex8_chars raw) as [Hlen Hchars].
    destruct Hhash as [Hhash|Hhash]; [exact (Hhash Hlen) | exact (Hhash Hchars)]. }
  assert (show_detail shows hash
          = Ok (TagResponse (_not_found (u "Show Not Found") (u "id=" ++ hash))))
    as Hshow.
  { unfold show_detail. rewrite dict_get_None; [reflexivity|].
    intros s Hin.
    assert (well_keyed shows) as Hkeyed.
    { eapply scan_loop_well_keyed; [|exact Hscan]. intros k s' []. }
    destruct (Hkeyed _ _ Hin) as [Hkey _]. exact (Hother _ (eq_sym Hkey)). }
  assert (episode_detail shows hash
          = Ok (TagResponse (_not_found (u "Episode Not Found") hash))) as Hepisode.
  { unfold episode_detail. rewrite find_none_iff; [reflexivity|].
    intros ep _. apply bool_decide_eq_false. apply Hother. }
  split; [exact Hshow|]. split; [exact Hepisode|].
  rewrite Hshow, Hepisode. split; reflexivity.
Qed.
End Outcomes.




Lemma malformed_hash_not_found_witness :
  show_detail foo_catalog (u "nope")
  = Ok (TagResponse (_not_found (u "Show Not Found") (u "id=" ++ u "nope")))
  /\ episode_detail foo_catalog (u "nope")
     = Ok (TagResponse (_not_found (u "Episode Not Found") (u "nope")))
  /\ status_code (show_detail foo_catalog (u "nope")) = 200%Z
  /\ status_code (episode_detail foo_catalog (u "nope")) = 200%Z.
Proof.
  refine (malformed_hash_not_found VIDEO_EXTENSIONS foo_show_first foo_catalog
            (u "nope") foo_scan _).
  left. vm_compute. lia.
Defined.

(** ** The numbering of the stills *)

Example str_of_int_values :
  str_of_int 0 = u "0" /\ str_of_int 7 = u "7" /\ str_of_int 10 = u "10"
  /\ str_of_int 4096 = u "4096" /\ str_of_int (-25) = u "-25".
Proof. vm_compute. repeat split; reflexivity. Qed.

Example thumbs_show_card :
  show_card thumbs_show (u "/show/x")
  = El "a" [] [("href", u "/show/x")]
      [ El "div" [] []
          [ El "div" [] []
              [ El "img" [] [("src", u "/thumbnail/lib/Foo/one.tbn");
                             ("alt", u "Foo: Bar still 1")] [];
                El "img" [] [("src", u "/thumbnail/lib/Foo/three.tbn");
                             ("alt", u "Foo: Bar still 2")] [];
                El "div" [] [] []; El "div" [] [] [] ];
            El "div" [] []
              [ El "h2" [] [] [Txt (u "Foo")]; El "div" [] [] [Txt (u "Bar")] ] ] ].
Proof. vm_compute. reflexivity. Qed.
